(** * CONUS404 batch download: driver, failure ledger and retry pass

    A shallow embedding of the process-orchestration core of the
    repository:

    - [src/driver.py]          ([DownloadDriver], per-date failure files),
    - [pipeline/src/driver.py] ([DownloadDriver], single ledger file
                                [data/failed_jobs.json], cleared at start),
    - [src/retry_failed.py]    ([main], the retry pass).

    Python dictionaries are insertion-ordered association lists with unique
    keys, the operating system is an oracle ([World]) that answers
    [subprocess.Popen], [Popen.poll] and [datetime.now], and each polling
    loop is a deterministic transition function on an explicit state with a
    program counter, iterated with [Nat.iter].

    Scope of the model.  File-system calls that the code does not guard
    individually (creating directories, appending to the log file, writing
    a JSON document) succeed; file contents are ASCII text; a ledger file
    that parses holds a JSON object whose values are failure records.  Log
    lines are kept as structured events, without the time stamp prefix; the
    banner, memory and per-process statistics lines are left out. *)

From Stdlib Require Import ZArith NArith Lia Ascii String.
From stdpp Require Import base decidable option list strings pretty.

Open Scope string_scope.
Open Scope list_scope.
Open Scope nat_scope.

(** ** Python dictionaries *)

(** A [dict] keeps its items in insertion order; assigning to an existing
    key replaces the value where it stands, a new key goes to the end. *)

Section pydict.
Context {K V : Type} `{EqDecision K}.

Fixpoint dict_get (k : K) (d : list (K * V)) : option V :=
  match d with
  | [] => None
  | (k', v) :: d' => if decide (k' = k) then Some v else dict_get k d'
  end.

(** [d[k] = v] *)
Fixpoint dict_set (k : K) (v : V) (d : list (K * V)) : list (K * V) :=
  match d with
  | [] => [(k, v)]
  | (k', v') :: d' =>
      if decide (k' = k) then (k', v) :: d' else (k', v') :: dict_set k v d'
  end.

(** [del d[k]]; every call site guards it so that [k] is a key. *)
Fixpoint dict_del (k : K) (d : list (K * V)) : list (K * V) :=
  match d with
  | [] => []
  | (k', v') :: d' =>
      if decide (k' = k) then d' else (k', v') :: dict_del k d'
  end.

(** [k in d] *)
Definition dict_mem (k : K) (d : list (K * V)) : bool :=
  match dict_get k d with Some _ => true | None => false end.

(** [d.keys()] *)
Definition dict_keys (d : list (K * V)) : list K := d.*1.

(** The well-formedness of a dictionary: no key occurs twice. *)
Definition dict_wf (d : list (K * V)) : Prop := NoDup (dict_keys d).
End pydict.

(** ** Calendar dates and the ["%Y-%m-%d"] format *)

Record date := Date { year : N; month : N; day : N }.

#[global] Instance date_eq_dec : EqDecision date.
Proof. solve_decision. Defined.

Definition is_leap (y : N) : bool :=
  ((y mod 4 =? 0) && (negb (y mod 100 =? 0) || (y mod 400 =? 0)))%N.

Definition days_in_month (y m : N) : N :=
  match m with
  | 2 => if is_leap y then 29 else 28
  | 4 | 6 | 9 | 11 => 30
  | _ => 31
  end%N.

(** What [datetime.date(y, m, d)] accepts ([MINYEAR = 1], [MAXYEAR = 9999]). *)
Definition valid_date (y m d : N) : bool :=
  ((1 <=? y) && (y <=? 9999) && (1 <=? m) && (m <=? 12)
   && (1 <=? d) && (d <=? days_in_month y m))%N.

Definition date_ok (x : date) : Prop :=
  valid_date (year x) (month x) (day x) = true.

Definition digit_char (n : N) : ascii := ascii_of_N (48 + n mod 10).

Definition digit_val (c : ascii) : option N :=
  let n := N_of_ascii c in
  if ((48 <=? n) && (n <=? 57))%N then Some (n - 48)%N else None.

Definition pad2 (n : N) : string :=
  String (digit_char (n / 10)) (String (digit_char n) "").

Definition pad4 (n : N) : string :=
  String (digit_char (n / 1000)) (String (digit_char (n / 100))
    (String (digit_char (n / 10)) (String (digit_char n) ""))).

(** [date.strftime("%Y-%m-%d")], the year zero-padded to four digits. *)
Definition strftime (x : date) : string :=
  pad4 (year x) +:+ "-" +:+ pad2 (month x) +:+ "-" +:+ pad2 (day x).

(** The month directive [%m] of [strptime] followed by the literal ["-"]:
    [1[0-2]|0[1-9]|[1-9]].  Returns the month and the rest of the text. *)
Definition parse_month (s : string) : option (N * string) :=
  match s with
  | String c1 (String "-" rest) =>
      match digit_val c1 with
      | Some a => if (1 <=? a)%N then Some (a, rest) else None
      | None => None
      end
  | String c1 (String c2 (String "-" rest)) =>
      match digit_val c1, digit_val c2 with
      | Some 1%N, Some b => if (b <=? 2)%N then Some ((10 + b)%N, rest) else None
      | Some 0%N, Some b => if (1 <=? b)%N then Some (b, rest) else None
      | _, _ => None
      end
  | _ => None
  end.

(** The day directive [%d] at the end of the text:
    [3[01]|[12]\d|0[1-9]|[1-9]| [1-9]], with nothing left unconverted. *)
Definition parse_day (s : string) : option N :=
  match s with
  | String c1 "" =>
      match digit_val c1 with
      | Some a => if (1 <=? a)%N then Some a else None
      | None => None
      end
  | String c1 (String c2 "") =>
      match digit_val c1, digit_val c2 with
      | Some 3%N, Some b => if (b <=? 1)%N then Some (30 + b)%N else None
      | Some 1%N, Some b => Some (10 + b)%N
      | Some 2%N, Some b => Some (20 + b)%N
      | Some 0%N, Some b => if (1 <=? b)%N then Some b else None
      | None, Some b =>
          if Ascii.eqb c1 " " && (1 <=? b)%N then Some b else None
      | _, _ => None
      end
  | _ => None
  end.

(** [datetime.strptime(s, "%Y-%m-%d").date()]: [None] stands for the
    [ValueError] raised when the text does not match the format or names
    no calendar day. *)
Definition strptime (s : string) : option date :=
  match s with
  | String y1 (String y2 (String y3 (String y4 (String "-" rest)))) =>
      match digit_val y1, digit_val y2, digit_val y3, digit_val y4 with
      | Some a, Some b, Some c, Some e =>
          let y := (1000 * a + 100 * b + 10 * c + e)%N in
          match parse_month rest with
          | Some (m, rest') =>
              match parse_day rest' with
              | Some d => if valid_date y m d then Some (Date y m d) else None
              | None => None
              end
          | None => None
          end
      | _, _, _, _ => None
      end
  | _ => None
  end.

(** A date string is canonical when it is what [strftime] writes for the
    date it parses to; a string that does not parse is left alone. *)
Definition canonical_key (k : string) : bool :=
  match strptime k with
  | Some x => String.eqb (strftime x) k
  | None => true
  end.

(** ** Configuration ([config.py]) *)

Record Config := {
  VARIABLE_AGG_MAP : list (string * bool);
  MAX_CONCURRENT_PROCESSES : nat;
}.

(** The values of [src/config.py]. *)
Definition src_config : Config := {|
  VARIABLE_AGG_MAP :=
    [("T2", true); ("Q2", true); ("TD2", true); ("PSFC", true);
     ("ACRAINLSM", false); ("LAI", true); ("U10", true); ("V10", true);
     ("Z", true)];
  MAX_CONCURRENT_PROCESSES := 8;
|}.

(** ** Failure records, the ledger and the files *)

Record FailureRecord := {
  rec_date : string;                  (* "date" *)
  variables_to_retry : list string;   (* "variables_to_retry" *)
  error_message : string;             (* "error_message" *)
  last_attempt : string;              (* "last_attempt" *)
}.

(** The ledger: date string to failure record. *)
Abbreviation Ledger := (list (string * FailureRecord)).

(** What a JSON file on disk holds: text that is no JSON document, or an
    object given by its members in file order (a key may be repeated). *)
Inductive json_file :=
| Unparsable
| JsonObject (members : list (string * FailureRecord)).

(** [json.load]: [None] stands for the exception; a repeated key keeps its
    first position and its last value. *)
Definition json_load (f : json_file) : option Ledger :=
  match f with
  | Unparsable => None
  | JsonObject members =>
      Some (fold_left (fun d kv => dict_set kv.1 kv.2 d) members [])
  end.

(** [json.dump] *)
Definition json_dump (d : Ledger) : json_file := JsonObject d.

Record FileSystem := {
  (* data/failed_jobs.json; [None]: the file does not exist *)
  FAILED_JOBS_FILE : option json_file;
  (* failed_jobs/<date>.json, one record per file, keyed by <date> *)
  FAILED_JOBS_DIR : list (string * FailureRecord);
  (* ultimate_failures.json *)
  ULTIMATE_FAILURE_FILE : option json_file;
  (* how many times ultimate_failures.json has been written *)
  ultimate_writes : nat;
}.

Definition write_failed_jobs_file (f : json_file) (fs : FileSystem) : FileSystem :=
  {| FAILED_JOBS_FILE := Some f;
     FAILED_JOBS_DIR := FAILED_JOBS_DIR fs;
     ULTIMATE_FAILURE_FILE := ULTIMATE_FAILURE_FILE fs;
     ultimate_writes := ultimate_writes fs |}.

Definition write_failed_jobs_dir (date_str : string) (r : FailureRecord)
    (fs : FileSystem) : FileSystem :=
  {| FAILED_JOBS_FILE := FAILED_JOBS_FILE fs;
     FAILED_JOBS_DIR := dict_set date_str r (FAILED_JOBS_DIR fs);
     ULTIMATE_FAILURE_FILE := ULTIMATE_FAILURE_FILE fs;
     ultimate_writes := ultimate_writes fs |}.

Definition write_ultimate_failure_file (f : json_file) (fs : FileSystem) : FileSystem :=
  {| FAILED_JOBS_FILE := FAILED_JOBS_FILE fs;
     FAILED_JOBS_DIR := FAILED_JOBS_DIR fs;
     ULTIMATE_FAILURE_FILE := Some f;
     ultimate_writes := S (ultimate_writes fs) |}.

(** The key invariant of the ledger: every key that parses as a date is
    the canonical [YYYY-MM-DD] string of that date. *)
Definition canonical_keys (d : Ledger) : bool :=
  forallb canonical_key (dict_keys d).

(** ** The operating system *)

(** A [subprocess.Popen] object: its pid, and the index of the task it was
    started for (the identity of the object). *)
Record Popen := { pid : nat; job : nat }.

(** The answers of the environment during one pass.
    - [popen i]: starting the worker of task [i]; [None] when
      [subprocess.Popen] (or opening its log file) raises.
    - [poll t p]: [p.poll()] during iteration [t] of the polling loop;
      [None] while the worker runs, its exit code afterwards.
    - [now t p]: [datetime.now().isoformat()] when the exit of [p] is
      handled during iteration [t]. *)
Record World := {
  popen : nat -> option nat;
  poll : nat -> Popen -> option Z;
  now : nat -> Popen -> string;
}.

(** An entry of [active_processes]: pid -> (date, process); the start time
    of the tuple only feeds log lines. *)
Abbreviation Active := (list (nat * (date * Popen))).

(** The dates of the active workers. *)
Definition dates_of (a : Active) : list date := (a.*2).*1.

(** What one poll of an active worker during iteration [t] observes. *)
Definition exited (w : World) (t : nat) (item : nat * (date * Popen)) : Prop :=
  is_Some (poll w t item.2.2).
Definition succeeded (w : World) (t : nat) (item : nat * (date * Popen)) : Prop :=
  poll w t item.2.2 = Some 0%Z.
Definition failed (w : World) (t : nat) (item : nat * (date * Popen)) : Prop :=
  exited w t item /\ ~ succeeded w t item.

#[global] Instance exited_dec w t item : Decision (exited w t item).
Proof. unfold exited. apply _. Defined.
#[global] Instance succeeded_dec w t item : Decision (succeeded w t item).
Proof. unfold succeeded. apply _. Defined.
#[global] Instance failed_dec w t item : Decision (failed w t item).
Proof. unfold failed. apply _. Defined.

(** ** Log lines *)

Inductive log_line :=
| LogCleared                                  (* "Cleared old failure log" *)
| LogLaunching (i total : nat) (d : date)     (* "Launching download i/total: d" *)
| LogLaunched (p : nat) (d : date)            (* "Launched subprocess PID p for d" *)
| LogLaunchError (d : date)                   (* "ERROR: Failed to launch subprocess for d" *)
| LogSuccess (p : nat) (d : date)             (* "SUCCESS: PID p completed d" *)
| LogFailed (p : nat) (d : date) (rc : Z)     (* "FAILED: PID p failed for d (exit code rc)" *)
| LogCouldNotParse                            (* "WARNING: Could not parse ..., overwriting." *)
| LogFailureLogged (date_str : string)        (* "  -> Successfully logged failure to ..." *)
| LogNoFailureFile                            (* "No failure log file found" *)
| LogCouldNotRead                             (* "ERROR: Could not read ..." *)
| LogLedgerEmpty                              (* "Failure log is empty." *)
| LogFound (n : nat)                          (* "Found n failed job(s) to retry." *)
| LogBadDate (date_str : string)              (* "WARNING: Could not parse date ..." *)
| LogLoaded (n : nat)                         (* "Loaded n unique dates to retry." *)
| LogWroteUltimate (n : nat)                  (* "Wrote n ultimate failures" *)
| LogAllResolved                              (* "All failures resolved." *)
| LogRetryStarting                            (* "STARTING AUTOMATIC RETRY PROCESS" *)
| LogRetryFinished (rc : Z)                   (* "Retry script finished with exit code rc." *)
| LogRetryFatal                               (* "FATAL: ... retry_failed.py" *)
| LogNoRetry.                                 (* "No failures to retry." *)

(** Where a polling loop stands: at the test of the outer [while], at the
    test of the inner [while] that launches workers, or past the loop. *)
Inductive control := LoopHead | LaunchHead | LoopExit.

#[global] Instance control_eq_dec : EqDecision control.
Proof. solve_decision. Defined.

(** ** The retry pass ([src/retry_failed.py]) *)

Module RetryFailed.

Definition MAX_RETRY_PROCESSES : nat := 2.

(** The local variables of [main] that the polling loop reads or writes.
    [total_dates] is [length dates_to_process]. *)
Record Locals := {
  dates_to_process : list date;
  active_processes : Active;
  completed_dates : list date;
  failed_dates : list date;
  date_index : nat;
  remaining_failures : Ledger;
  log : list log_line;
  ticks : nat;
  pc : control;
}.

(** [launch_retry_subprocess] for task [i]: the process, if it started,
    and the line logged. *)
Definition launch_retry_subprocess (w : World) (i : nat) (d : date)
    : option Popen * log_line :=
  match popen w i with
  | Some p => (Some {| pid := p; job := i |}, LogLaunched p d)
  | None => (None, LogLaunchError d)
  end.

(** Lines 151-157: the dates that parse, in key order, and one warning
    per key that does not. *)
Fixpoint parse_dates (keys : list string) : list date * list log_line :=
  match keys with
  | [] => ([], [])
  | date_str :: keys' =>
      let '(ds, lg) := parse_dates keys' in
      match strptime date_str with
      | Some date_obj => (date_obj :: ds, lg)
      | None => (ds, LogBadDate date_str :: lg)
      end
  end.

(** Line 192-193: the record of a date that failed again. *)
Definition retry_failed_record (return_code : Z) (ts : string)
    (r : FailureRecord) : FailureRecord :=
  {| rec_date := rec_date r;
     variables_to_retry := variables_to_retry r;
     error_message := "Retry failed with exit code " +:+ pretty return_code;
     last_attempt := ts |}.

(** Lines 174-193: the body of the [for] over a snapshot of
    [active_processes], for one item; [acc.1] is [completed_pids]. *)
Definition poll_item (w : World) (acc : list nat * Locals)
    (item : nat * (date * Popen)) : list nat * Locals :=
  let '(completed_pids, st) := acc in
  let '(p, (d, proc)) := item in
  match poll w (ticks st) proc with
  | None => (completed_pids, st)
  | Some return_code =>
      let date_str := strftime d in
      if (return_code =? 0)%Z then
        (completed_pids ++ [p],
         {| dates_to_process := dates_to_process st;
            active_processes := active_processes st;
            completed_dates := completed_dates st ++ [d];
            failed_dates := failed_dates st;
            date_index := date_index st;
            remaining_failures :=
              (if dict_mem date_str (remaining_failures st)
               then dict_del date_str (remaining_failures st)
               else remaining_failures st);
            log := log st ++ [LogSuccess p d];
            ticks := ticks st;
            pc := pc st |})
      else
        (completed_pids ++ [p],
         {| dates_to_process := dates_to_process st;
            active_processes := active_processes st;
            completed_dates := completed_dates st;
            failed_dates := failed_dates st ++ [d];
            date_index := date_index st;
            remaining_failures :=
              match dict_get date_str (remaining_failures st) with
              | Some r =>
                  dict_set date_str
                    (retry_failed_record return_code (now w (ticks st) proc) r)
                    (remaining_failures st)
              | None => remaining_failures st
              end;
            log := log st ++ [LogFailed p d return_code];
            ticks := ticks st;
            pc := pc st |})
  end.

(** Lines 173-197: poll every active process, then forget the ones that
    have exited. *)
Definition check_completed (w : World) (st : Locals) : Locals :=
  let '(completed_pids, st1) :=
    fold_left (poll_item w) (active_processes st) ([], st) in
  {| dates_to_process := dates_to_process st1;
     active_processes :=
       fold_left (fun a p => dict_del p a) completed_pids (active_processes st1);
     completed_dates := completed_dates st1;
     failed_dates := failed_dates st1;
     date_index := date_index st1;
     remaining_failures := remaining_failures st1;
     log := log st1;
     ticks := ticks st1;
     pc := LaunchHead |}.

(** Lines 203-209: one turn of the inner [while]. *)
Definition launch_next (w : World) (d : date) (st : Locals) : Locals :=
  let i := date_index st in
  let total_dates := length (dates_to_process st) in
  let '(proc, line) := launch_retry_subprocess w i d in
  {| dates_to_process := dates_to_process st;
     active_processes :=
       match proc with
       | Some pr => dict_set (pid pr) (d, pr) (active_processes st)
       | None => active_processes st
       end;
     completed_dates := completed_dates st;
     failed_dates := failed_dates st;
     date_index := S i;
     remaining_failures := remaining_failures st;
     log := log st ++ [LogLaunching (S i) total_dates d; line];
     ticks := ticks st;
     pc := LaunchHead |}.

(** [time.sleep(1)] and back to the test of the outer loop. *)
Definition sleep (st : Locals) : Locals :=
  {| dates_to_process := dates_to_process st;
     active_processes := active_processes st;
     completed_dates := completed_dates st;
     failed_dates := failed_dates st;
     date_index := date_index st;
     remaining_failures := remaining_failures st;
     log := log st;
     ticks := S (ticks st);
     pc := LoopHead |}.

Definition leave (st : Locals) : Locals :=
  {| dates_to_process := dates_to_process st;
     active_processes := active_processes st;
     completed_dates := completed_dates st;
     failed_dates := failed_dates st;
     date_index := date_index st;
     remaining_failures := remaining_failures st;
     log := log st;
     ticks := ticks st;
     pc := LoopExit |}.

(** One transition of the loop of lines 171-218. *)
Definition step (w : World) (st : Locals) : Locals :=
  let total_dates := length (dates_to_process st) in
  match pc st with
  | LoopHead =>
      if (date_index st <? total_dates)
         || negb (bool_decide (active_processes st = []))
      then check_completed w st
      else leave st
  | LaunchHead =>
      if (length (active_processes st) <? MAX_RETRY_PROCESSES)
         && (date_index st <? total_dates)
      then
        match dates_to_process st !! date_index st with
        | Some d => launch_next w d st
        | None => st
        end
      else sleep st
  | LoopExit => st
  end.

(** Lines 149-169: the state in which the loop is entered. *)
Definition loop_entry (failed_jobs : Ledger) : Locals :=
  let '(dates, warnings) := parse_dates (dict_keys failed_jobs) in
  {| dates_to_process := dates;
     active_processes := [];
     completed_dates := [];
     failed_dates := [];
     date_index := 0;
     remaining_failures := failed_jobs;
     log := [LogFound (length failed_jobs)] ++ warnings
            ++ [LogLoaded (length dates)];
     ticks := 0;
     pc := LoopHead |}.

(** The state of a run that returns before the loop. *)
Definition early (line : log_line) : Locals :=
  {| dates_to_process := [];
     active_processes := [];
     completed_dates := [];
     failed_dates := [];
     date_index := 0;
     remaining_failures := [];
     log := [line];
     ticks := 0;
     pc := LoopExit |}.

(** The state after [n] transitions. *)
Definition exec (w : World) (n : nat) (st : Locals) : Locals :=
  Nat.iter n (step w) st.

(** Lines 226-237: write the ultimate failures and choose the exit code. *)
Definition finish (fs : FileSystem) (st : Locals) : Z * FileSystem * Locals :=
  let fs' := write_ultimate_failure_file (json_dump (remaining_failures st)) fs in
  let line :=
    match remaining_failures st with
    | [] => LogAllResolved
    | _ => LogWroteUltimate (length (remaining_failures st))
    end in
  ((match failed_dates st with [] => 0 | _ => 1 end)%Z, fs',
   {| dates_to_process := dates_to_process st;
      active_processes := active_processes st;
      completed_dates := completed_dates st;
      failed_dates := failed_dates st;
      date_index := date_index st;
      remaining_failures := remaining_failures st;
      log := log st ++ [line];
      ticks := ticks st;
      pc := pc st |}).

(** [main]: the exit code, the files and the locals when [main] returns
    within [fuel] transitions of the loop; [None] when the loop is still
    running then. *)
Definition main (w : World) (fuel : nat) (fs : FileSystem)
    : option (Z * FileSystem * Locals) :=
  match FAILED_JOBS_FILE fs with
  | None =>
      Some (0%Z, write_ultimate_failure_file (json_dump []) fs,
            early LogNoFailureFile)
  | Some f =>
      match json_load f with
      | None => Some (1%Z, fs, early LogCouldNotRead)
      | Some failed_jobs =>
          match failed_jobs with
          | [] =>
              Some (0%Z, write_ultimate_failure_file (json_dump []) fs,
                    early LogLedgerEmpty)
          | _ =>
              let st := exec w fuel (loop_entry failed_jobs) in
              match pc st with
              | LoopExit => Some (finish fs st)
              | _ => None
              end
          end
      end
  end.

End RetryFailed.

(** ** The driver ([src/driver.py] and [pipeline/src/driver.py]) *)

Module Driver.

(** The two drivers share [launch_subprocess], [check_completed_processes]
    and the loop of [run]; they differ in [log_failure] and in the first
    lines of [run]. *)
Inductive variant :=
| SrcDriver        (* src/driver.py *)
| PipelineDriver.  (* pipeline/src/driver.py *)

(** The attributes of [DownloadDriver] that change during a run, and the
    files. *)
Record DownloadDriver := {
  active_processes : Active;
  completed_dates : list date;
  failed_dates : list date;
  log : list log_line;
  fs : FileSystem;
}.

(** [__init__] *)
Definition init (fs0 : FileSystem) : DownloadDriver :=
  {| active_processes := []; completed_dates := []; failed_dates := [];
     log := []; fs := fs0 |}.

Definition print_and_log (line : log_line) (self : DownloadDriver)
    : DownloadDriver :=
  {| active_processes := active_processes self;
     completed_dates := completed_dates self;
     failed_dates := failed_dates self;
     log := log self ++ [line];
     fs := fs self |}.

Definition with_fs (fs' : FileSystem) (self : DownloadDriver) : DownloadDriver :=
  {| active_processes := active_processes self;
     completed_dates := completed_dates self;
     failed_dates := failed_dates self;
     log := log self;
     fs := fs' |}.

Definition with_active (a : Active) (self : DownloadDriver) : DownloadDriver :=
  {| active_processes := a;
     completed_dates := completed_dates self;
     failed_dates := failed_dates self;
     log := log self;
     fs := fs self |}.

(** The local variables of [run] next to [self]. *)
Record RunState := {
  self : DownloadDriver;
  date_index : nat;
  ticks : nat;
  pc : control;
}.

Section driver.
Variable v : variant.
Variable cfg : Config.
Variable max_processes : nat.
Variable w : World.

(** The dictionary [failure_data] of [log_failure]. *)
Definition failure_data (date_str : string) (return_code : Z) (ts : string)
    : FailureRecord :=
  {| rec_date := date_str;
     variables_to_retry := dict_keys (VARIABLE_AGG_MAP cfg);
     error_message := "Subprocess failed with exit code " +:+ pretty return_code;
     last_attempt := ts |}.

(** [log_failure]; [ts] is what [datetime.now().isoformat()] returns.
    - [src/driver.py] writes [failed_jobs/<date>.json].
    - [pipeline/src/driver.py] reads [data/failed_jobs.json] (nothing
      when it is absent or does not parse), sets the entry of the date
      and writes the whole dictionary back. *)
Definition log_failure (ts : string) (d : date) (return_code : Z)
    (self : DownloadDriver) : DownloadDriver :=
  let date_str := strftime d in
  let r := failure_data date_str return_code ts in
  match v with
  | SrcDriver =>
      print_and_log (LogFailureLogged date_str)
        (with_fs (write_failed_jobs_dir date_str r (fs self)) self)
  | PipelineDriver =>
      let '(failures, self1) :=
        match FAILED_JOBS_FILE (fs self) with
        | None => ([], self)
        | Some f =>
            match json_load f with
            | Some failures => (failures, self)
            | None => ([], print_and_log LogCouldNotParse self)
            end
        end in
      let failures' := dict_set date_str r failures in
      print_and_log (LogFailureLogged date_str)
        (with_fs (write_failed_jobs_file (json_dump failures') (fs self1)) self1)
  end.

(** [launch_subprocess] for task [i]. *)
Definition launch_subprocess (i : nat) (d : date) (self : DownloadDriver)
    : DownloadDriver * option Popen :=
  match popen w i with
  | Some p =>
      let proc := {| pid := p; job := i |} in
      (print_and_log (LogLaunched p d)
         (with_active (dict_set p (d, proc) (active_processes self)) self),
       Some proc)
  | None => (print_and_log (LogLaunchError d) self, None)
  end.

(** The body of the [for] of [check_completed_processes], for one item
    of the snapshot; [acc.1] is [completed_pids]. *)
Definition poll_item (t : nat) (acc : list nat * DownloadDriver)
    (item : nat * (date * Popen)) : list nat * DownloadDriver :=
  let '(completed_pids, self) := acc in
  let '(p, (d, proc)) := item in
  match poll w t proc with
  | None => (completed_pids, self)
  | Some return_code =>
      if (return_code =? 0)%Z then
        (completed_pids ++ [p],
         print_and_log (LogSuccess p d)
           {| active_processes := active_processes self;
              completed_dates := completed_dates self ++ [d];
              failed_dates := failed_dates self;
              log := log self;
              fs := fs self |})
      else
        (completed_pids ++ [p],
         log_failure (now w t proc) d return_code
           (print_and_log (LogFailed p d return_code)
              {| active_processes := active_processes self;
                 completed_dates := completed_dates self;
                 failed_dates := failed_dates self ++ [d];
                 log := log self;
                 fs := fs self |}))
  end.

(** [check_completed_processes] during iteration [t]. *)
Definition check_completed_processes (t : nat) (self : DownloadDriver)
    : DownloadDriver :=
  let '(completed_pids, self1) :=
    fold_left (poll_item t) (active_processes self) ([], self) in
  with_active
    (fold_left (fun a p => dict_del p a) completed_pids (active_processes self1))
    self1.

Variable dates_to_process : list date.

(** One transition of the loop of [run]. *)
Definition step (st : RunState) : RunState :=
  let total_dates := length dates_to_process in
  match pc st with
  | LoopHead =>
      if (date_index st <? total_dates)
         || negb (bool_decide (active_processes (self st) = []))
      then
        {| self := check_completed_processes (ticks st) (self st);
           date_index := date_index st; ticks := ticks st;
           pc := LaunchHead |}
      else
        {| self := self st; date_index := date_index st;
           ticks := ticks st; pc := LoopExit |}
  | LaunchHead =>
      if (length (active_processes (self st)) <? max_processes)
         && (date_index st <? total_dates)
      then
        match dates_to_process !! date_index st with
        | Some d =>
            let i := date_index st in
            {| self :=
                 (launch_subprocess i d
                    (print_and_log (LogLaunching (S i) total_dates d)
                       (self st))).1;
               date_index := S i; ticks := ticks st; pc := LaunchHead |}
        | None => st
        end
      else
        {| self := self st; date_index := date_index st;
           ticks := S (ticks st); pc := LoopHead |}
  | LoopExit => st
  end.

(** The first lines of [run]: only the pipeline driver clears the
    ledger file. *)
Definition run_entry (self0 : DownloadDriver) : RunState :=
  {| self :=
       match v with
       | SrcDriver => self0
       | PipelineDriver =>
           print_and_log LogCleared
             (with_fs (write_failed_jobs_file (json_dump []) (fs self0)) self0)
       end;
     date_index := 0; ticks := 0; pc := LoopHead |}.

(** The state after [n] transitions of the loop. *)
Definition exec (n : nat) (st : RunState) : RunState := Nat.iter n step st.

(** The retry block after the loop.  [retry_world] is [None] when
    [subprocess.run] raises; otherwise the retry script runs in that
    world, on the files the driver leaves. *)
Definition retry_block (retry_world : option World) (retry_fuel : nat)
    (self1 : DownloadDriver) : option DownloadDriver :=
  match failed_dates self1 with
  | [] => Some (print_and_log LogNoRetry self1)
  | _ =>
      let self2 := print_and_log LogRetryStarting self1 in
      match retry_world with
      | None => Some (print_and_log LogRetryFatal self2)
      | Some wr =>
          match RetryFailed.main wr retry_fuel (fs self2) with
          | Some (returncode, fs', _) =>
              Some (print_and_log (LogRetryFinished returncode)
                      (with_fs fs' self2))
          | None => None
          end
      end
  end.

(** [run]: the value returned and the driver, when the loop ends within
    [fuel] transitions and the retry script within [retry_fuel]. *)
Definition run (fuel : nat) (retry_world : option World) (retry_fuel : nat)
    (self0 : DownloadDriver) : option (bool * DownloadDriver) :=
  let st := exec fuel (run_entry self0) in
  match pc st with
  | LoopExit =>
      match retry_block retry_world retry_fuel (self st) with
      | Some self3 =>
          Some (bool_decide (length (failed_dates self3) = 0), self3)
      | None => None
      end
  | _ => None
  end.

(** The [__main__] block: the exit code of the driver process. *)
Definition driver_main (fuel : nat) (retry_world : option World)
    (retry_fuel : nat) (fs0 : FileSystem) : option (Z * DownloadDriver) :=
  match run fuel retry_world retry_fuel (init fs0) with
  | Some (success, driver) => Some (if success then 0%Z else 1%Z, driver)
  | None => None
  end.

End driver.

(** The failure ledger of a driver: the directory of per-date files, or
    what the ledger file holds (nothing when it is absent or does not
    parse). *)
Definition ledger (v : variant) (fs : FileSystem) : Ledger :=
  match v with
  | SrcDriver => FAILED_JOBS_DIR fs
  | PipelineDriver =>
      match FAILED_JOBS_FILE fs with
      | Some f => default [] (json_load f)
      | None => []
      end
  end.

(** The record the ledger holds for a date string. *)
Definition recorded (v : variant) (fs : FileSystem) (date_str : string)
    : option FailureRecord :=
  dict_get date_str (ledger v fs).

End Driver.

(** ** Scenarios *)

(** Concrete files, task lists and worlds on which the model is run. *)

Definition no_files : FileSystem :=
  {| FAILED_JOBS_FILE := None; FAILED_JOBS_DIR := [];
     ULTIMATE_FAILURE_FILE := None; ultimate_writes := 0 |}.

Definition three_days : list date :=
  [Date 1988 3 31; Date 1988 4 1; Date 1988 4 2].

(** Every worker has exited at the third poll; the worker of the second
    task exits with 1, the others with 0. *)
Definition day2_fails : World :=
  {| popen := fun i => Some (100 + i);
     poll := fun t p =>
       if t <? 2 then None else Some (if job p =? 1 then 1%Z else 0%Z);
     now := fun t p => "1988-05-01T00:00:0" +:+ pretty t |}.

(** Every worker exits with 0 (with 3) at the second poll. *)
Definition retry_succeeds : World :=
  {| popen := fun i => Some (200 + i);
     poll := fun t p => if t <? 1 then None else Some 0%Z;
     now := fun t p => "1988-05-02T00:00:0" +:+ pretty t |}.

Definition retry_fails : World :=
  {| popen := fun i => Some (200 + i);
     poll := fun t p => if t <? 1 then None else Some 3%Z;
     now := fun t p => "1988-05-02T00:00:0" +:+ pretty t |}.

(** The worker of the second task cannot be started; the others exit
    with 0 at the third poll. *)
Definition second_launch_fails : World :=
  {| popen := fun i => if i =? 1 then None else Some (100 + i);
     poll := fun t p => if t <? 2 then None else Some 0%Z;
     now := fun t p => "1988-05-01T00:00:0" +:+ pretty t |}.

(** In the retry, the worker of the first task exits with 0 and every
    other worker with 3, all at the second poll. *)
Definition retry_mixed : World :=
  {| popen := fun i => Some (200 + i);
     poll := fun t p =>
       if t <? 1 then None else Some (if job p =? 0 then 0%Z else 3%Z);
     now := fun t p => "1988-05-02T00:00:0" +:+ pretty t |}.

(** No worker can be started. *)
Definition cannot_launch : World :=
  {| popen := fun i => None;
     poll := fun t p => None;
     now := fun t p => "1988-05-02T00:00:00" |}.

Definition record_of (date_str : string) : FailureRecord :=
  {| rec_date := date_str;
     variables_to_retry := dict_keys (VARIABLE_AGG_MAP src_config);
     error_message := "Subprocess failed with exit code 1";
     last_attempt := "1988-05-01T00:00:00" |}.

(** A ledger file with the given records and no other file. *)
Definition ledger_file (members : Ledger) : FileSystem :=
  {| FAILED_JOBS_FILE := Some (JsonObject members); FAILED_JOBS_DIR := [];
     ULTIMATE_FAILURE_FILE := None; ultimate_writes := 0 |}.

(** A ledger file that is no JSON document. *)
Definition corrupt_ledger : FileSystem :=
  {| FAILED_JOBS_FILE := Some Unparsable; FAILED_JOBS_DIR := [];
     ULTIMATE_FAILURE_FILE := None; ultimate_writes := 0 |}.

(** ** Invariants of the retry pass *)

(** [proc] is the worker of a pass over [dates] for the date [d]: the
    process that [popen] returned for the task of that date. *)
Definition worker_of (w : World) (dates : list date) (d : date)
    (proc : Popen) : Prop :=
  dates !! job proc = Some d /\ popen w (job proc) = Some (pid proc).

(** No pid is given to two workers of the pass. *)
Definition pids_distinct (w : World) : Prop :=
  forall i j p, popen w i = Some p -> popen w j = Some p -> i = j.

(** What the remaining failures hold for the dates retried so far, given
    the ledger [failed_jobs] the pass started from: nothing for a date in
    [C], whose worker was polled with exit code 0; the updated record for
    a date in [F], whose worker was polled with another exit code; the
    original record for a date that is in neither. *)
Definition retry_outcomes (w : World) (failed_jobs : Ledger)
    (C F : list date) (rem : Ledger) : Prop :=
  (forall x, x ∈ C ->
     dict_get (strftime x) rem = None
     /\ exists t proc,
          worker_of w (omap strptime (dict_keys failed_jobs)) x proc
          /\ poll w t proc = Some 0%Z)
  /\ (forall x, x ∈ F ->
        exists r0 t proc rc,
          worker_of w (omap strptime (dict_keys failed_jobs)) x proc
          /\ dict_get (strftime x) failed_jobs = Some r0
          /\ poll w t proc = Some rc /\ rc ≠ 0%Z
          /\ dict_get (strftime x) rem
             = Some (RetryFailed.retry_failed_record rc (now w t proc) r0))
  /\ (forall x, x ∈ omap strptime (dict_keys failed_jobs) -> x ∉ C -> x ∉ F ->
        dict_get (strftime x) rem = dict_get (strftime x) failed_jobs).

(** The invariant of the [for] loop over the snapshot [todo]. *)
Definition retry_poll_inv (w : World) (failed_jobs : Ledger)
    (todo : Active) (st : RetryFailed.Locals) : Prop :=
  dict_wf (RetryFailed.remaining_failures st)
  /\ NoDup (dates_of todo ++ RetryFailed.completed_dates st
            ++ RetryFailed.failed_dates st)
  /\ (forall x, x ∈ dates_of todo ++ RetryFailed.completed_dates st
                    ++ RetryFailed.failed_dates st ->
        x ∈ omap strptime (dict_keys failed_jobs))
  /\ retry_outcomes w failed_jobs (RetryFailed.completed_dates st)
       (RetryFailed.failed_dates st) (RetryFailed.remaining_failures st)
  /\ (forall item, item ∈ todo ->
        worker_of w (omap strptime (dict_keys failed_jobs)) item.2.1 item.2.2).

(** The invariant of the polling loop of the retry pass. *)
Definition retry_inv (w : World) (failed_jobs : Ledger)
    (st : RetryFailed.Locals) : Prop :=
  RetryFailed.dates_to_process st = omap strptime (dict_keys failed_jobs)
  /\ dict_wf (RetryFailed.active_processes st)
  /\ dict_wf (RetryFailed.remaining_failures st)
  /\ dict_keys (RetryFailed.remaining_failures st)
       `sublist_of` dict_keys failed_jobs
  /\ dates_of (RetryFailed.active_processes st)
       ++ RetryFailed.completed_dates st ++ RetryFailed.failed_dates st
     ⊆+ take (RetryFailed.date_index st) (omap strptime (dict_keys failed_jobs))
  /\ retry_outcomes w failed_jobs (RetryFailed.completed_dates st)
       (RetryFailed.failed_dates st) (RetryFailed.remaining_failures st)
  /\ (forall item, item ∈ RetryFailed.active_processes st ->
        worker_of w (omap strptime (dict_keys failed_jobs)) item.2.1 item.2.2).

(** Every worker that was started is accounted for: it is active, or its
    date is on the completed or on the failed list; and past the loop no
    worker is active and every task has been taken. *)
Definition retry_accounted (w : World) (failed_jobs : Ledger)
    (st : RetryFailed.Locals) : Prop :=
  RetryFailed.dates_to_process st = omap strptime (dict_keys failed_jobs)
  /\ dict_wf (RetryFailed.active_processes st)
  /\ (forall item, item ∈ RetryFailed.active_processes st ->
        item.1 = pid item.2.2
        /\ popen w (job item.2.2) = Some (pid item.2.2)
        /\ job item.2.2 < RetryFailed.date_index st)
  /\ (forall i d p,
        i < RetryFailed.date_index st ->
        omap strptime (dict_keys failed_jobs) !! i = Some d ->
        popen w i = Some p ->
        d ∈ dates_of (RetryFailed.active_processes st)
        \/ d ∈ RetryFailed.completed_dates st
        \/ d ∈ RetryFailed.failed_dates st)
  /\ (RetryFailed.pc st = LoopExit ->
      RetryFailed.active_processes st = []
      /\ length (omap strptime (dict_keys failed_jobs))
         <= RetryFailed.date_index st).

(** * Properties *)

(** ** Dictionaries *)

Section pydict_facts.
Context {K V : Type} `{EqDecision K}.
Implicit Types (k : K) (v : V) (d : list (K * V)).

Lemma dict_get_None k d : dict_get k d = None <-> k ∉ dict_keys d.
Proof.
  unfold dict_keys. induction d as [|[k' v'] d IH]; simpl.
  - split; [intros _; apply not_elem_of_nil | done].
  - rewrite not_elem_of_cons. destruct (decide (k' = k)) as [->|Hne].
    + split; [done | intros [? _]; done].
    + rewrite IH. split; [intros ?; split; [congruence | done] | tauto].
Qed.

Lemma dict_get_Some_elem k v d : dict_get k d = Some v -> (k, v) ∈ d.
Proof.
  induction d as [|[k' v'] d IH]; simpl; [done|].
  destruct (decide (k' = k)) as [->|Hne].
  - intros [= ->]. apply elem_of_cons; auto.
  - intros Hg. apply elem_of_cons; auto.
Qed.

Lemma dict_get_elem k v d : dict_wf d -> (k, v) ∈ d -> dict_get k d = Some v.
Proof.
  unfold dict_wf, dict_keys. induction d as [|[k' v'] d IH]; simpl.
  - intros _ Hin. by apply elem_of_nil in Hin.
  - rewrite NoDup_cons. intros [Hni Hnd] Hin.
    apply elem_of_cons in Hin as [[= -> ->]|Hin].
    + by rewrite decide_True.
    + destruct (decide (k' = k)) as [->|Hne]; [|by apply IH].
      exfalso. apply Hni. apply (list_elem_of_fmap_2 fst) in Hin. done.
Qed.

Lemma dict_get_key k v d : dict_get k d = Some v -> k ∈ dict_keys d.
Proof.
  intros Hg. apply dict_get_Some_elem in Hg.
  apply (list_elem_of_fmap_2 fst) in Hg. done.
Qed.

Lemma dict_key_get k d : k ∈ dict_keys d -> is_Some (dict_get k d).
Proof.
  intros Hk. destruct (dict_get k d) eqn:E; [eauto|].
  apply dict_get_None in E. done.
Qed.

Lemma dict_get_set_eq k v d : dict_get k (dict_set k v d) = Some v.
Proof.
  induction d as [|[k' v'] d IH]; simpl.
  - by rewrite decide_True.
  - destruct (decide (k' = k)) as [->|Hne]; simpl.
    + by rewrite decide_True.
    + by rewrite decide_False.
Qed.

Lemma dict_get_set_ne k k' v d :
  k ≠ k' -> dict_get k' (dict_set k v d) = dict_get k' d.
Proof.
  intros Hne. induction d as [|[k0 v0] d IH]; simpl.
  - by rewrite decide_False.
  - destruct (decide (k0 = k)) as [->|Hne0]; simpl.
    + by rewrite !decide_False.
    + by rewrite IH.
Qed.

(** Assigning to a key that is present keeps the keys as they are. *)
Lemma dict_keys_set_present k v d :
  k ∈ dict_keys d -> dict_keys (dict_set k v d) = dict_keys d.
Proof.
  unfold dict_keys. induction d as [|[k' v'] d IH]; simpl.
  - intros Hin. by apply elem_of_nil in Hin.
  - intros Hin. destruct (decide (k' = k)) as [->|Hne]; simpl; [done|].
    apply elem_of_cons in Hin as [->|Hin]; [done|]. f_equal. by apply IH.
Qed.

(** Assigning to a new key appends it. *)
Lemma dict_set_absent k v d :
  k ∉ dict_keys d -> dict_set k v d = d ++ [(k, v)].
Proof.
  unfold dict_keys. induction d as [|[k' v'] d IH]; simpl; [done|].
  rewrite not_elem_of_cons. intros [Hne Hni].
  rewrite decide_False by done. by rewrite IH.
Qed.

Lemma dict_wf_set k v d : dict_wf d -> dict_wf (dict_set k v d).
Proof.
  intros Hwf. unfold dict_wf. destruct (decide (k ∈ dict_keys d)) as [Hin|Hni].
  - by rewrite dict_keys_set_present.
  - rewrite dict_set_absent by done. unfold dict_keys.
    rewrite fmap_app. simpl. apply NoDup_app. split; [done|].
    split; [|apply NoDup_singleton].
    intros x Hx Hx'. apply list_elem_of_singleton in Hx'. by subst.
Qed.

Lemma dict_set_length_present k v d :
  k ∈ dict_keys d -> length (dict_set k v d) = length d.
Proof.
  intros Hin. rewrite <- (length_fmap fst (dict_set k v d)).
  fold (dict_keys (dict_set k v d)). rewrite dict_keys_set_present by done.
  unfold dict_keys. by rewrite length_fmap.
Qed.

Lemma dict_set_length_le k v d : length (dict_set k v d) <= S (length d).
Proof.
  destruct (decide (k ∈ dict_keys d)).
  - rewrite dict_set_length_present by done. lia.
  - rewrite dict_set_absent by done. rewrite length_app. simpl. lia.
Qed.

Lemma dict_set_elem k v d x : x ∈ dict_set k v d -> x = (k, v) ∨ x ∈ d.
Proof.
  induction d as [|[k' v'] d IH]; simpl.
  - intros Hx. apply list_elem_of_singleton in Hx. auto.
  - destruct (decide (k' = k)) as [->|Hne]; rewrite !elem_of_cons; intuition auto.
Qed.

Lemma dict_del_sublist k d : dict_del k d `sublist_of` d.
Proof.
  induction d as [|[k' v'] d IH]; simpl; [done|].
  destruct (decide (k' = k)); [by apply sublist_cons | by apply sublist_skip].
Qed.

Lemma dict_wf_del k d : dict_wf d -> dict_wf (dict_del k d).
Proof.
  unfold dict_wf, dict_keys. intros Hwf.
  eapply sublist_NoDup; [exact Hwf|]. apply fmap_sublist, dict_del_sublist.
Qed.

Lemma dict_get_del_eq k d : dict_wf d -> dict_get k (dict_del k d) = None.
Proof.
  unfold dict_wf, dict_keys. induction d as [|[k' v'] d IH]; simpl; [done|].
  rewrite NoDup_cons. intros [Hni Hnd].
  destruct (decide (k' = k)) as [->|Hne]; simpl.
  - by apply dict_get_None.
  - rewrite decide_False by done. by apply IH.
Qed.

Lemma dict_get_del_ne k k' d :
  k ≠ k' -> dict_get k' (dict_del k d) = dict_get k' d.
Proof.
  intros Hne. induction d as [|[k0 v0] d IH]; simpl; [done|].
  destruct (decide (k0 = k)) as [->|Hne0]; simpl.
  - by rewrite decide_False.
  - by rewrite IH.
Qed.

(** Deleting keys one after the other never enlarges a dictionary. *)
Lemma dict_del_all_sublist (ks : list K) d :
  fold_left (fun a k => dict_del k a) ks d `sublist_of` d.
Proof.
  revert d. induction ks as [|k ks IH]; intros d; simpl; [done|].
  etrans; [apply IH | apply dict_del_sublist].
Qed.

Lemma dict_del_all_cons_ne (ks : list K) k v d :
  k ∉ ks ->
  fold_left (fun a k => dict_del k a) ks ((k, v) :: d)
  = (k, v) :: fold_left (fun a k => dict_del k a) ks d.
Proof.
  revert d. induction ks as [|k0 ks IH]; intros d; simpl; [done|].
  rewrite not_elem_of_cons. intros [Hne Hni].
  rewrite decide_False by done. by apply IH.
Qed.

(** Deleting the keys of the items that satisfy [P] leaves the others, in
    order: the two loops at the end of a poll implement a filter. *)
Lemma dict_del_filter (P : K * V -> Prop) `{!forall x, Decision (P x)} d :
  dict_wf d ->
  fold_left (fun a k => dict_del k a) (dict_keys (filter P d)) d
  = filter (fun x => ¬ P x) d.
Proof.
  unfold dict_wf, dict_keys. induction d as [|[k v] d IH]; [done|].
  rewrite fmap_cons, NoDup_cons. simpl. intros [Hni Hnd].
  rewrite !filter_cons. destruct (decide (P (k, v))) as [HP|HP].
  - rewrite decide_False by tauto. simpl. rewrite decide_True by done.
    by apply IH.
  - rewrite decide_True by done. rewrite dict_del_all_cons_ne.
    + by rewrite IH.
    + intros Hin. apply Hni. apply list_elem_of_fmap in Hin as [[k1 v1] [-> Hin]].
      apply list_elem_of_filter in Hin as [_ Hin].
      apply (list_elem_of_fmap_2 fst) in Hin. done.
Qed.
End pydict_facts.

(** ** Dates: [strptime] reads back what [strftime] writes *)

Example strptime_canonical : strptime "1988-03-31" = Some (Date 1988 3 31).
Proof. reflexivity. Qed.
Example strptime_short : strptime "1988-3-1" = Some (Date 1988 3 1).
Proof. reflexivity. Qed.
Example strptime_space : strptime "1988-3- 1" = Some (Date 1988 3 1).
Proof. reflexivity. Qed.
Example strptime_feb30 : strptime "1988-02-30" = None.
Proof. reflexivity. Qed.
Example strptime_trailing : strptime "1988-03-311" = None.
Proof. reflexivity. Qed.
Example strptime_year0 : strptime "0000-03-31" = None.
Proof. reflexivity. Qed.
Example strftime_ex : strftime (Date 1988 3 1) = "1988-03-01".
Proof. reflexivity. Qed.
Example pretty_ex : pretty (-9)%Z = "-9".
Proof. reflexivity. Qed.

Lemma digit_val_char (n : N) : digit_val (digit_char n) = Some (n mod 10)%N.
Proof.
  unfold digit_val, digit_char.
  assert (Hlt : (n mod 10 < 10)%N) by (apply N.mod_lt; lia).
  generalize dependent (n mod 10)%N. intros r Hr.
  rewrite N_ascii_embedding by lia.
  replace ((48 <=? 48 + r)%N && (48 + r <=? 57)%N) with true.
  - f_equal. lia.
  - symmetry. apply andb_true_iff. split; apply N.leb_le; lia.
Qed.

Lemma parse_month_pad2 (m : N) (rest : string) :
  (1 <= m <= 12)%N ->
  parse_month (pad2 m +:+ "-" +:+ rest) = Some (m, rest).
Proof.
  intros Hm.
  assert (H : (m = 1 \/ m = 2 \/ m = 3 \/ m = 4 \/ m = 5 \/ m = 6 \/ m = 7
               \/ m = 8 \/ m = 9 \/ m = 10 \/ m = 11 \/ m = 12)%N) by lia.
  repeat (destruct H as [->|H]; [reflexivity|]). subst. reflexivity.
Qed.

Lemma parse_day_pad2 (d : N) :
  (1 <= d <= 31)%N -> parse_day (pad2 d) = Some d.
Proof.
  intros Hd.
  assert (H : (d = 1 \/ d = 2 \/ d = 3 \/ d = 4 \/ d = 5 \/ d = 6 \/ d = 7
               \/ d = 8 \/ d = 9 \/ d = 10 \/ d = 11 \/ d = 12 \/ d = 13
               \/ d = 14 \/ d = 15 \/ d = 16 \/ d = 17 \/ d = 18 \/ d = 19
               \/ d = 20 \/ d = 21 \/ d = 22 \/ d = 23 \/ d = 24 \/ d = 25
               \/ d = 26 \/ d = 27 \/ d = 28 \/ d = 29 \/ d = 30 \/ d = 31)%N)
    by lia.
  repeat (destruct H as [->|H]; [reflexivity|]). subst. reflexivity.
Qed.

Lemma days_in_month_le (y m : N) : (days_in_month y m <= 31)%N.
Proof.
  unfold days_in_month.
  destruct m as [|p]; [lia|].
  do 4 (try destruct p as [p|p|]); try destruct (is_leap y); lia.
Qed.

Lemma year_digits (y : N) :
  (y <= 9999)%N ->
  (1000 * ((y / 1000) mod 10) + 100 * ((y / 100) mod 10)
   + 10 * ((y / 10) mod 10) + y mod 10 = y)%N.
Proof.
  intros Hy.
  assert (H4 : (y / 1000 < 10)%N) by (apply N.Div0.div_lt_upper_bound; lia).
  rewrite (N.mod_small (y / 1000) 10) by done.
  replace (y / 1000)%N with (y / 10 / 10 / 10)%N in *
    by (by rewrite !N.Div0.div_div).
  replace (y / 100)%N with (y / 10 / 10)%N by (by rewrite !N.Div0.div_div).
  pose proof (N.div_mod y 10 ltac:(lia)) as H1.
  pose proof (N.div_mod (y / 10) 10 ltac:(lia)) as H2.
  pose proof (N.div_mod (y / 10 / 10) 10 ltac:(lia)) as H3.
  remember (y mod 10)%N as r0. remember (y / 10)%N as q1.
  remember (q1 mod 10)%N as r1. remember (q1 / 10)%N as q2.
  remember (q2 mod 10)%N as r2. remember (q2 / 10)%N as q3.
  lia.
Qed.

Lemma strptime_pad4 (y : N) (rest : string) :
  (y <= 9999)%N ->
  strptime (pad4 y +:+ "-" +:+ rest)
  = match parse_month rest with
    | Some (m, rest') =>
        match parse_day rest' with
        | Some d => if valid_date y m d then Some (Date y m d) else None
        | None => None
        end
    | None => None
    end.
Proof.
  intros Hy. unfold pad4.
  change (String (digit_char (y / 1000)) (String (digit_char (y / 100))
            (String (digit_char (y / 10)) (String (digit_char y) "")))
          +:+ "-" +:+ rest)
    with (String (digit_char (y / 1000)) (String (digit_char (y / 100))
            (String (digit_char (y / 10)) (String (digit_char y)
               (String "-" rest))))).
  unfold strptime.
  rewrite !digit_val_char. cbv beta iota zeta.
  by rewrite year_digits.
Qed.

(** For every calendar day, parsing the formatted date gives it back. *)
Lemma strptime_strftime (x : date) : date_ok x -> strptime (strftime x) = Some x.
Proof.
  destruct x as [y m d]. unfold date_ok, strftime. cbn [year month day].
  intros Hv. pose proof Hv as Hv'. unfold valid_date in Hv.
  repeat (apply andb_true_iff in Hv as [Hv ?]).
  repeat match goal with H : (_ <=? _)%N = true |- _ => apply N.leb_le in H end.
  pose proof (days_in_month_le y m).
  rewrite strptime_pad4 by lia.
  rewrite parse_month_pad2 by lia. rewrite parse_day_pad2 by lia.
  by rewrite Hv'.
Qed.

(** A key that parses names a calendar day. *)
Lemma strptime_ok (s : string) (x : date) : strptime s = Some x -> date_ok x.
Proof.
  unfold strptime, date_ok. intros Hs.
  repeat match type of Hs with
         | match ?t with _ => _ end = Some _ => destruct t eqn:?; try done
         end.
  by simplify_eq.
Qed.

Lemma strftime_inj (x y : date) :
  date_ok x -> date_ok y -> strftime x = strftime y -> x = y.
Proof.
  intros Hx Hy Heq. apply strptime_strftime in Hx, Hy.
  rewrite Heq in Hx. congruence.
Qed.

(** ** JSON files *)

Lemma json_load_fold_wf (members acc : Ledger) :
  dict_wf acc ->
  dict_wf (fold_left (fun d kv => dict_set kv.1 kv.2 d) members acc).
Proof.
  revert acc. induction members as [|[k r] ms IH]; intros acc Hwf; simpl; [done|].
  apply IH. by apply dict_wf_set.
Qed.

(** A loaded document is a dictionary: no key twice. *)
Lemma json_load_wf (f : json_file) (d : Ledger) :
  json_load f = Some d -> dict_wf d.
Proof.
  destruct f as [|ms]; simpl; [done|]. intros [= <-].
  apply json_load_fold_wf. apply NoDup_nil_2.
Qed.

Lemma json_load_fold_app (members acc : Ledger) :
  dict_wf (acc ++ members) ->
  fold_left (fun d kv => dict_set kv.1 kv.2 d) members acc = acc ++ members.
Proof.
  revert acc. induction members as [|[k r] ms IH]; intros acc Hwf; simpl.
  - by rewrite app_nil_r.
  - rewrite dict_set_absent.
    + rewrite IH; rewrite <- app_assoc; done.
    + unfold dict_wf, dict_keys in Hwf. rewrite fmap_app in Hwf.
      apply NoDup_app in Hwf as (_ & Hdisj & _).
      intros Hin. apply (Hdisj k Hin). simpl. apply elem_of_cons; auto.
Qed.

(** Loading what was dumped gives the dictionary back. *)
Lemma json_load_dump (d : Ledger) : dict_wf d -> json_load (json_dump d) = Some d.
Proof. intros Hwf. simpl. f_equal. by apply (json_load_fold_app d []). Qed.

(** ** The driver *)

Section driver_facts.
Import Driver.
Variable v : variant.
Variable cfg : Config.
Variable max_processes : nat.
Variable w : World.

Lemma ledger_wf_pipeline fs : dict_wf (ledger PipelineDriver fs).
Proof.
  unfold ledger. destruct (FAILED_JOBS_FILE fs) as [f|]; [|apply NoDup_nil_2].
  destruct (json_load f) eqn:E; simpl; [by eapply json_load_wf | apply NoDup_nil_2].
Qed.

(** [log_failure] leaves the process bookkeeping alone. *)
Lemma log_failure_fields ts d rc self :
  let self' := log_failure v cfg ts d rc self in
  active_processes self' = active_processes self
  /\ completed_dates self' = completed_dates self
  /\ failed_dates self' = failed_dates self.
Proof.
  unfold log_failure. destruct v; simpl; [done|].
  destruct (FAILED_JOBS_FILE (fs self)) as [f|]; [|done].
  destruct (json_load f); done.
Qed.

(** [log_failure] sets the entry of the date in the ledger, whatever the
    ledger file held before. *)
Lemma log_failure_ledger ts d rc self :
  ledger v (fs (log_failure v cfg ts d rc self))
  = dict_set (strftime d) (failure_data cfg (strftime d) rc ts)
      (ledger v (fs self)).
Proof.
  unfold log_failure.
  destruct v; [done|].
  pose proof (ledger_wf_pipeline (fs self)) as Hwf.
  unfold ledger in *.
  destruct (FAILED_JOBS_FILE (fs self)) as [f|]; simpl.
  - destruct (json_load f) as [failures|] eqn:E; simpl in *.
    + rewrite json_load_fold_app; [done|]. by apply dict_wf_set.
    + done.
  - done.
Qed.

Lemma log_failure_files ts d rc self :
  ULTIMATE_FAILURE_FILE (fs (log_failure v cfg ts d rc self))
  = ULTIMATE_FAILURE_FILE (fs self)
  /\ ultimate_writes (fs (log_failure v cfg ts d rc self))
     = ultimate_writes (fs self).
Proof.
  unfold log_failure. destruct v; simpl; [done|].
  destruct (FAILED_JOBS_FILE (fs self)) as [f|]; [|done].
  destruct (json_load f); done.
Qed.

(** The [for] loop of [check_completed_processes]: what it leaves in
    [completed_pids] and in the lists of the driver. *)
Lemma poll_fold_pids t items pids self :
  (fold_left (poll_item v cfg w t) items (pids, self)).1
  = pids ++ dict_keys (filter (exited w t) items).
Proof.
  revert pids self. induction items as [|[p [d proc]] items IH];
    intros pids self.
  - simpl. by rewrite app_nil_r.
  - destruct (poll w t proc) as [rc|] eqn:E.
    + rewrite filter_cons_True by (unfold exited; simpl; rewrite E; eauto).
      simpl. rewrite E.
      destruct (rc =? 0)%Z; rewrite IH; simpl; by rewrite <- app_assoc.
    + rewrite filter_cons_False
        by (unfold exited; simpl; rewrite E; by intros [? ?]).
      simpl. rewrite E. apply IH.
Qed.

Lemma poll_fold_active t items pids self :
  active_processes (fold_left (poll_item v cfg w t) items (pids, self)).2
  = active_processes self.
Proof.
  revert pids self. induction items as [|[p [d proc]] items IH];
    intros pids self; simpl; [done|].
  destruct (poll w t proc) as [rc|]; [|apply IH].
  destruct (rc =? 0)%Z; rewrite IH; [done|].
  by rewrite (proj1 (log_failure_fields _ _ _ _)).
Qed.

Lemma poll_fold_completed t items pids self :
  completed_dates (fold_left (poll_item v cfg w t) items (pids, self)).2
  = completed_dates self ++ dates_of (filter (succeeded w t) items).
Proof.
  revert pids self. induction items as [|[p [d proc]] items IH];
    intros pids self.
  - simpl. by rewrite app_nil_r.
  - destruct (poll w t proc) as [rc|] eqn:E.
    + destruct (rc =? 0)%Z eqn:Erc.
      * apply Z.eqb_eq in Erc as ->.
        rewrite filter_cons_True by (unfold succeeded; simpl; by rewrite E).
        simpl. rewrite E. simpl. rewrite IH. simpl. by rewrite <- app_assoc.
      * rewrite filter_cons_False
          by (unfold succeeded; simpl; rewrite E;
              apply Z.eqb_neq in Erc; congruence).
        simpl. rewrite E, Erc. rewrite IH.
        by rewrite (proj1 (proj2 (log_failure_fields _ _ _ _))).
    + rewrite filter_cons_False by (unfold succeeded; simpl; by rewrite E).
      simpl. rewrite E. apply IH.
Qed.

Lemma poll_fold_failed t items pids self :
  failed_dates (fold_left (poll_item v cfg w t) items (pids, self)).2
  = failed_dates self ++ dates_of (filter (failed w t) items).
Proof.
  revert pids self. induction items as [|[p [d proc]] items IH];
    intros pids self.
  - simpl. by rewrite app_nil_r.
  - destruct (poll w t proc) as [rc|] eqn:E.
    + destruct (rc =? 0)%Z eqn:Erc.
      * apply Z.eqb_eq in Erc as ->.
        rewrite filter_cons_False
          by (unfold failed, succeeded; simpl; rewrite E; tauto).
        simpl. rewrite E. simpl. by rewrite IH.
      * rewrite filter_cons_True
          by (unfold failed, exited, succeeded; simpl; rewrite E;
              apply Z.eqb_neq in Erc; split; [eauto | congruence]).
        simpl. rewrite E, Erc. rewrite IH.
        rewrite (proj2 (proj2 (log_failure_fields _ _ _ _))). simpl.
        by rewrite <- app_assoc.
    + rewrite filter_cons_False
        by (unfold failed, exited; simpl; rewrite E; intros [[? ?] _]; done).
      simpl. rewrite E. apply IH.
Qed.

#[local] Arguments log_failure : simpl never.

(** What one item of the [for] loop does to the ledger. *)
Lemma poll_item_ledger t pids self p d proc :
  ledger v (fs (poll_item v cfg w t (pids, self) (p, (d, proc))).2)
  = match poll w t proc with
    | Some rc =>
        if (rc =? 0)%Z then ledger v (fs self)
        else dict_set (strftime d)
               (failure_data cfg (strftime d) rc (now w t proc))
               (ledger v (fs self))
    | None => ledger v (fs self)
    end.
Proof.
  simpl. destruct (poll w t proc) as [rc|]; [|done].
  destruct (rc =? 0)%Z; [done|]. cbn [snd]. by rewrite log_failure_ledger.
Qed.

(** A date string that no failing worker of the snapshot carries keeps
    its entry. *)
Lemma poll_fold_recorded_other t items pids self k :
  (forall item, item ∈ items -> failed w t item -> strftime item.2.1 ≠ k) ->
  recorded v (fs (fold_left (poll_item v cfg w t) items (pids, self)).2) k
  = recorded v (fs self) k.
Proof.
  revert pids self. induction items as [|[p [d proc]] items IH];
    intros pids self Hno; [done|].
  cbn [fold_left].
  destruct (poll_item v cfg w t (pids, self) (p, (d, proc))) as [pids1 self1] eqn:E1.
  rewrite IH by (intros item Hin; apply Hno; apply elem_of_cons; auto).
  unfold recorded.
  replace self1 with (poll_item v cfg w t (pids, self) (p, (d, proc))).2
    by (by rewrite E1).
  rewrite poll_item_ledger.
  destruct (poll w t proc) as [rc|] eqn:E; [|done].
  destruct (rc =? 0)%Z eqn:Erc; [done|].
  apply dict_get_set_ne.
  apply (Hno (p, (d, proc))); [apply elem_of_cons; auto|].
  apply Z.eqb_neq in Erc.
  unfold failed, exited, succeeded. simpl. rewrite E. split; [eauto | congruence].
Qed.

(** After the loop the ledger holds, for the date string of every worker
    that exited nonzero, the record of such a worker. *)
Lemma poll_fold_recorded t items pids self p d proc :
  (p, (d, proc)) ∈ items -> failed w t (p, (d, proc)) ->
  exists p' d' proc' rc',
    (p', (d', proc')) ∈ items /\ poll w t proc' = Some rc' /\ rc' ≠ 0%Z
    /\ strftime d' = strftime d
    /\ recorded v (fs (fold_left (poll_item v cfg w t) items (pids, self)).2)
         (strftime d)
       = Some (failure_data cfg (strftime d) rc' (now w t proc')).
Proof.
  revert pids self p d proc. induction items as [|[p0 [d0 proc0]] items IH];
    intros pids self p d proc Hin Hf.
  { by apply elem_of_nil in Hin. }
  cbn [fold_left].
  destruct (poll_item v cfg w t (pids, self) (p0, (d0, proc0)))
    as [pids1 self1] eqn:E1.
  destruct (decide (Exists (fun y => failed w t y /\ strftime y.2.1 = strftime d)
                      items)) as [Hex|Hnex].
  - apply Exists_exists in Hex as ([p1 [d1 proc1]] & Hin1 & Hf1 & Hk1).
    simpl in Hk1.
    destruct (IH pids1 self1 _ _ _ Hin1 Hf1)
      as (p' & d' & proc' & rc' & H1 & H2 & H3 & H4 & H5).
    exists p', d', proc', rc'. rewrite <- Hk1.
    repeat split; try done. apply elem_of_cons; auto.
  - assert (Hhead : (p, (d, proc)) = (p0, (d0, proc0))).
    { apply elem_of_cons in Hin as [?|Hin]; [done|]. exfalso. apply Hnex.
      apply Exists_exists. exists (p, (d, proc)). auto. }
    simplify_eq.
    rewrite poll_fold_recorded_other.
    + unfold recorded.
      replace self1 with (poll_item v cfg w t (pids, self) (p0, (d0, proc0))).2
        by (by rewrite E1).
      rewrite poll_item_ledger.
      destruct Hf as [[rc Hrc] Hns]. unfold succeeded in Hns. simpl in Hrc, Hns.
      rewrite Hrc. assert (rc ≠ 0%Z) by congruence.
      destruct (rc =? 0)%Z eqn:Erc; [by apply Z.eqb_eq in Erc|].
      exists p0, d0, proc0, rc. repeat split; try done.
      apply dict_get_set_eq.
    + intros item Hitem Hfi Hk. apply Hnex. apply Exists_exists. eauto.
Qed.

(** The loop adds no date string to the ledger but those of workers that
    exited nonzero. *)
Lemma poll_fold_ledger_keys t items pids self k :
  k ∈ dict_keys (ledger v (fs (fold_left (poll_item v cfg w t) items (pids, self)).2)) ->
  k ∈ dict_keys (ledger v (fs self))
  \/ exists item, item ∈ items /\ failed w t item /\ k = strftime item.2.1.
Proof.
  revert pids self. induction items as [|[p [d proc]] items IH];
    intros pids self Hk; [by left|].
  cbn [fold_left] in Hk.
  destruct (poll_item v cfg w t (pids, self) (p, (d, proc))) as [pids1 self1] eqn:E1.
  apply IH in Hk as [Hk|(item & Hin & Hf & ->)].
  - replace self1 with (poll_item v cfg w t (pids, self) (p, (d, proc))).2 in Hk
      by (by rewrite E1).
    rewrite poll_item_ledger in Hk.
    destruct (poll w t proc) as [rc|] eqn:E; [|by left].
    destruct (rc =? 0)%Z eqn:Erc; [by left|].
    destruct (decide (k = strftime d)) as [->|Hne].
    + right. exists (p, (d, proc)). split; [apply elem_of_cons; auto|].
      split; [|done]. apply Z.eqb_neq in Erc.
      unfold failed, exited, succeeded. simpl. rewrite E.
      split; [eauto | congruence].
    + left. apply dict_key_get in Hk as [r Hr].
      rewrite dict_get_set_ne in Hr by done. by eapply dict_get_key.
  - right. exists item. split; [apply elem_of_cons; auto | done].
Qed.

(** [check_completed_processes], field by field. *)
Lemma check_active_sublist t self :
  active_processes (check_completed_processes v cfg w t self)
  `sublist_of` active_processes self.
Proof.
  unfold check_completed_processes.
  destruct (fold_left _ _ _) as [pids self1] eqn:E. simpl.
  replace (active_processes self1) with (active_processes self).
  - apply dict_del_all_sublist.
  - pose proof (poll_fold_active t (active_processes self) [] self) as H.
    by rewrite E in H.
Qed.

Lemma check_active t self :
  dict_wf (active_processes self) ->
  active_processes (check_completed_processes v cfg w t self)
  = filter (fun item => ~ exited w t item) (active_processes self).
Proof.
  intros Hwf. unfold check_completed_processes.
  destruct (fold_left _ _ _) as [pids self1] eqn:E. simpl.
  pose proof (poll_fold_active t (active_processes self) [] self) as Ha.
  pose proof (poll_fold_pids t (active_processes self) [] self) as Hp.
  rewrite E in Ha, Hp. simpl in Ha, Hp. rewrite Ha, Hp.
  by apply dict_del_filter.
Qed.

Lemma check_completed t self :
  completed_dates (check_completed_processes v cfg w t self)
  = completed_dates self
    ++ dates_of (filter (succeeded w t) (active_processes self)).
Proof.
  unfold check_completed_processes.
  pose proof (poll_fold_completed t (active_processes self) [] self) as H.
  destruct (fold_left _ _ _) as [pids self1]. done.
Qed.

Lemma check_failed t self :
  failed_dates (check_completed_processes v cfg w t self)
  = failed_dates self ++ dates_of (filter (failed w t) (active_processes self)).
Proof.
  unfold check_completed_processes.
  pose proof (poll_fold_failed t (active_processes self) [] self) as H.
  destruct (fold_left _ _ _) as [pids self1]. done.
Qed.

Lemma check_fs t self :
  fs (check_completed_processes v cfg w t self)
  = fs (fold_left (poll_item v cfg w t) (active_processes self) ([], self)).2.
Proof.
  unfold check_completed_processes.
  destruct (fold_left _ _ _) as [pids self1]. done.
Qed.


(** [launch_subprocess], field by field. *)
Lemma launch_active i d self :
  active_processes (launch_subprocess w i d self).1
  = match popen w i with
    | Some p => dict_set p (d, {| pid := p; job := i |}) (active_processes self)
    | None => active_processes self
    end.
Proof. unfold launch_subprocess. by destruct (popen w i). Qed.

Lemma launch_fields i d self :
  let self' := (launch_subprocess w i d self).1 in
  completed_dates self' = completed_dates self
  /\ failed_dates self' = failed_dates self
  /\ fs self' = fs self.
Proof. unfold launch_subprocess. by destruct (popen w i). Qed.

Variable dates_to_process : list date.

Lemma exec_S n st :
  exec v cfg max_processes w dates_to_process (S n) st
  = step v cfg max_processes w dates_to_process
      (exec v cfg max_processes w dates_to_process n st).
Proof. done. Qed.

(** An invariant of the transition function holds after any number of
    transitions. *)
Lemma exec_invariant (I : RunState -> Prop) st :
  I st ->
  (forall st', I st' -> I (step v cfg max_processes w dates_to_process st')) ->
  forall n, I (exec v cfg max_processes w dates_to_process n st).
Proof.
  intros H0 Hstep n. induction n as [|n IH]; [done|].
  rewrite exec_S. by apply Hstep.
Qed.

(** The active set never grows beyond the bound, and it grows only from
    a state in which it is strictly below the bound. *)
Lemma step_bound st :
  length (active_processes (self st)) <= max_processes ->
  length (active_processes
            (self (step v cfg max_processes w dates_to_process st)))
  <= max_processes.
Proof.
  intros Hle. unfold step. destruct (pc st).
  - destruct (_ || _); simpl; [|done].
    etrans; [apply sublist_length, check_active_sublist | done].
  - destruct (_ && _) eqn:G; simpl; [|done].
    apply andb_true_iff in G as [G _]. apply Nat.ltb_lt in G.
    destruct (dates_to_process !! date_index st) as [d|]; simpl; [|done].
    rewrite launch_active. simpl.
    destruct (popen w (date_index st)); [|lia].
    etrans; [apply dict_set_length_le | lia].
  - done.
Qed.

Lemma step_grows_below st :
  length (active_processes (self st))
  < length (active_processes
              (self (step v cfg max_processes w dates_to_process st))) ->
  pc st = LaunchHead /\ length (active_processes (self st)) < max_processes.
Proof.
  unfold step. destruct (pc st).
  - destruct (_ || _); simpl; [|lia].
    intros Hlt. pose proof (sublist_length _ _
      (check_active_sublist (ticks st) (self st))). lia.
  - destruct (_ && _) eqn:G; simpl; [|lia].
    apply andb_true_iff in G as [G _]. apply Nat.ltb_lt in G. done.
  - lia.
Qed.

Lemma step_wf st :
  dict_wf (active_processes (self st)) ->
  dict_wf (active_processes
             (self (step v cfg max_processes w dates_to_process st))).
Proof.
  intros Hwf. unfold step. destruct (pc st).
  - destruct (_ || _); simpl; [|done].
    unfold dict_wf, dict_keys. eapply sublist_NoDup; [exact Hwf|].
    apply fmap_sublist, check_active_sublist.
  - destruct (_ && _); simpl; [|done].
    destruct (dates_to_process !! date_index st) as [d|]; simpl; [|done].
    rewrite launch_active. simpl.
    destruct (popen w (date_index st)); [|done]. by apply dict_wf_set.
  - done.
Qed.

Lemma exec_wf n fs0 :
  dict_wf (active_processes (self
    (exec v cfg max_processes w dates_to_process n (run_entry v (init fs0))))).
Proof.
  apply (exec_invariant (fun st => dict_wf (active_processes (self st)))).
  - destruct v; apply NoDup_nil_2.
  - apply step_wf.
Qed.

End driver_facts.

(** ** Polling a snapshot: the three classes of workers *)

Lemma failed_iff w t (item : nat * (date * Popen)) :
  failed w t item <-> exists rc, poll w t item.2.2 = Some rc /\ rc ≠ 0%Z.
Proof.
  unfold failed, exited, succeeded. split.
  - intros [[rc Hrc] Hns]. exists rc. split; [done | congruence].
  - intros (rc & Hrc & Hne). split; [eauto | congruence].
Qed.

Lemma dates_of_cons p d proc (a : Active) :
  dates_of ((p, (d, proc)) :: a) = d :: dates_of a.
Proof. done. Qed.

Lemma dates_of_elem (a : Active) x :
  x ∈ dates_of a <-> exists p proc, (p, (x, proc)) ∈ a.
Proof.
  unfold dates_of. split.
  - intros Hx. apply list_elem_of_fmap in Hx as ([d proc] & -> & Hx).
    apply list_elem_of_fmap in Hx as ([p [d' proc']] & Heq & Hx).
    simpl in Heq. simplify_eq. eauto.
  - intros (p & proc & Hin).
    apply (list_elem_of_fmap_2 snd) in Hin. apply (list_elem_of_fmap_2 fst) in Hin.
    done.
Qed.

Lemma dates_of_sublist (a b : Active) :
  a `sublist_of` b -> dates_of a `sublist_of` dates_of b.
Proof. intros H. unfold dates_of. by do 2 apply fmap_sublist. Qed.


Lemma perm_move_mid {A} (d : A) (X C F : list A) :
  X ++ (C ++ [d]) ++ F ≡ₚ d :: X ++ C ++ F.
Proof.
  rewrite <- (app_assoc C [d] F). simpl.
  rewrite (app_assoc X C (d :: F)). rewrite <- Permutation_middle.
  by rewrite <- app_assoc.
Qed.

Lemma perm_move_end {A} (d : A) (X C F : list A) :
  X ++ C ++ F ++ [d] ≡ₚ d :: X ++ C ++ F.
Proof.
  rewrite (app_assoc C F [d]). rewrite (app_assoc X (C ++ F) [d]).
  by rewrite <- Permutation_cons_append.
Qed.

Lemma poll_classes_Permutation w t (a : Active) (C F : list date) :
  dates_of (filter (fun item => ~ exited w t item) a)
  ++ (C ++ dates_of (filter (succeeded w t) a))
  ++ (F ++ dates_of (filter (failed w t) a))
  ≡ₚ dates_of a ++ C ++ F.
Proof.
  revert C F. induction a as [|[p [d proc]] a IH]; intros C F.
  - simpl. by rewrite !app_nil_r.
  - rewrite dates_of_cons, <- app_comm_cons.
    destruct (decide (exited w t (p, (d, proc)))) as [Hex|Hex].
    + rewrite (filter_cons_False (fun item => ~ exited w t item)) by tauto.
      destruct (decide (succeeded w t (p, (d, proc)))) as [Hs|Hs].
      * rewrite (filter_cons_True (succeeded w t)) by done.
        rewrite (filter_cons_False (failed w t)) by (unfold failed; tauto).
        rewrite dates_of_cons.
        rewrite <- perm_move_mid. rewrite <- IH.
        by rewrite <- (app_assoc C [d]).
      * rewrite (filter_cons_False (succeeded w t)) by done.
        rewrite (filter_cons_True (failed w t)) by (unfold failed; tauto).
        rewrite dates_of_cons.
        rewrite <- perm_move_end. 
        rewrite <- (IH C (F ++ [d])).
        by rewrite <- (app_assoc F [d]).
    + rewrite (filter_cons_True (fun item => ~ exited w t item)) by done.
      rewrite (filter_cons_False (succeeded w t))
        by (unfold succeeded, exited in *; intros Hs; apply Hex; eauto).
      rewrite (filter_cons_False (failed w t)) by (unfold failed; tauto).
      rewrite dates_of_cons, <- app_comm_cons. by rewrite IH.
Qed.

(** A launch adds at most its own date to the dates of the active set. *)
Lemma dates_of_dict_set p d proc (a : Active) :
  dates_of (dict_set p (d, proc) a) ⊆+ dates_of a ++ [d].
Proof.
  induction a as [|[p0 [d0 proc0]] a IH]; [done|].
  change (dict_set p (d, proc) ((p0, (d0, proc0)) :: a))
    with (if decide (p0 = p) then (p0, (d, proc)) :: a
          else (p0, (d0, proc0)) :: dict_set p (d, proc) a).
  destruct (decide (p0 = p)) as [->|Hne].
  - rewrite !dates_of_cons, <- app_comm_cons. apply submseteq_cons.
    by rewrite <- Permutation_cons_append.
  - rewrite !dates_of_cons, <- app_comm_cons. by apply submseteq_skip.
Qed.

Lemma submseteq_NoDup {A} (l k : list A) : NoDup k -> l ⊆+ k -> NoDup l.
Proof.
  intros Hk Hsub. apply submseteq_sublist_r in Hsub as (l2 & Hp & Hs).
  rewrite Hp. by eapply sublist_NoDup.
Qed.

Lemma submseteq_elem {A} (l k : list A) x : l ⊆+ k -> x ∈ l -> x ∈ k.
Proof.
  intros Hsub Hx. apply submseteq_sublist_r in Hsub as (l2 & Hp & Hs).
  rewrite Hp in Hx. by eapply elem_of_sublist.
Qed.

(** ** The retry pass *)

Section retry_facts.
Import RetryFailed.
Variable w : World.

Lemma retry_exec_S n st : exec w (S n) st = step w (exec w n st).
Proof. done. Qed.

Lemma retry_exec_invariant (I : Locals -> Prop) st :
  I st -> (forall st', I st' -> I (step w st')) -> forall n, I (exec w n st).
Proof.
  intros H0 Hstep n. induction n as [|n IH]; [done|].
  rewrite retry_exec_S. by apply Hstep.
Qed.

(** One item of the [for] loop changes the two lists of dates, the
    remaining failures and the log, nothing else. *)
Lemma retry_poll_item_frame pids st item :
  let st' := (poll_item w (pids, st) item).2 in
  dates_to_process st' = dates_to_process st
  /\ active_processes st' = active_processes st
  /\ date_index st' = date_index st
  /\ ticks st' = ticks st
  /\ pc st' = pc st.
Proof.
  destruct item as [p [d proc]]. simpl.
  destruct (poll w (ticks st) proc) as [rc|]; [|done].
  destruct (rc =? 0)%Z; done.
Qed.

Lemma retry_poll_fold_frame items pids st :
  let st' := (fold_left (poll_item w) items (pids, st)).2 in
  dates_to_process st' = dates_to_process st
  /\ active_processes st' = active_processes st
  /\ date_index st' = date_index st
  /\ ticks st' = ticks st
  /\ pc st' = pc st.
Proof.
  revert pids st. induction items as [|item items IH]; intros pids st; [done|].
  cbn [fold_left].
  destruct (poll_item w (pids, st) item) as [pids1 st1] eqn:E.
  pose proof (retry_poll_item_frame pids st item) as Hf.
  rewrite E in Hf. simpl in Hf. destruct Hf as (<- & <- & <- & <- & <-).
  apply IH.
Qed.

Lemma retry_poll_fold_pids items pids st :
  (fold_left (poll_item w) items (pids, st)).1
  = pids ++ dict_keys (filter (exited w (ticks st)) items).
Proof.
  revert pids st. induction items as [|[p [d proc]] items IH]; intros pids st.
  - simpl. by rewrite app_nil_r.
  - destruct (poll w (ticks st) proc) as [rc|] eqn:E.
    + rewrite filter_cons_True by (unfold exited; simpl; rewrite E; eauto).
      simpl. rewrite E.
      destruct (rc =? 0)%Z; rewrite IH; simpl; by rewrite <- app_assoc.
    + rewrite filter_cons_False
        by (unfold exited; simpl; rewrite E; by intros [? ?]).
      simpl. rewrite E. apply IH.
Qed.

Lemma retry_poll_fold_completed items pids st :
  completed_dates (fold_left (poll_item w) items (pids, st)).2
  = completed_dates st ++ dates_of (filter (succeeded w (ticks st)) items).
Proof.
  revert pids st. induction items as [|[p [d proc]] items IH]; intros pids st.
  - simpl. by rewrite app_nil_r.
  - destruct (poll w (ticks st) proc) as [rc|] eqn:E.
    + destruct (rc =? 0)%Z eqn:Erc.
      * apply Z.eqb_eq in Erc as ->.
        rewrite filter_cons_True by (unfold succeeded; simpl; by rewrite E).
        simpl. rewrite E. simpl. rewrite IH. simpl. by rewrite <- app_assoc.
      * rewrite filter_cons_False
          by (unfold succeeded; simpl; rewrite E;
              apply Z.eqb_neq in Erc; congruence).
        simpl. rewrite E, Erc. by rewrite IH.
    + rewrite filter_cons_False by (unfold succeeded; simpl; by rewrite E).
      simpl. rewrite E. apply IH.
Qed.

Lemma retry_poll_fold_failed items pids st :
  failed_dates (fold_left (poll_item w) items (pids, st)).2
  = failed_dates st ++ dates_of (filter (failed w (ticks st)) items).
Proof.
  revert pids st. induction items as [|[p [d proc]] items IH]; intros pids st.
  - simpl. by rewrite app_nil_r.
  - destruct (poll w (ticks st) proc) as [rc|] eqn:E.
    + destruct (rc =? 0)%Z eqn:Erc.
      * apply Z.eqb_eq in Erc as ->.
        rewrite filter_cons_False
          by (unfold failed, succeeded; simpl; rewrite E; tauto).
        simpl. rewrite E. simpl. by rewrite IH.
      * rewrite filter_cons_True
          by (unfold failed, exited, succeeded; simpl; rewrite E;
              apply Z.eqb_neq in Erc; split; [eauto | congruence]).
        simpl. rewrite E, Erc. rewrite IH. simpl. by rewrite <- app_assoc.
    + rewrite filter_cons_False
        by (unfold failed, exited; simpl; rewrite E; intros [[? ?] _]; done).
      simpl. rewrite E. apply IH.
Qed.

(** [check_completed], field by field. *)
Lemma retry_check_frame st :
  let st' := check_completed w st in
  dates_to_process st' = dates_to_process st
  /\ date_index st' = date_index st
  /\ ticks st' = ticks st
  /\ pc st' = LaunchHead.
Proof.
  unfold check_completed.
  pose proof (retry_poll_fold_frame (active_processes st) [] st) as Hf.
  destruct (fold_left _ _ _) as [pids st1]. simpl in *. tauto.
Qed.

Lemma retry_check_active_sublist st :
  active_processes (check_completed w st) `sublist_of` active_processes st.
Proof.
  unfold check_completed.
  pose proof (retry_poll_fold_frame (active_processes st) [] st) as Hf.
  destruct (fold_left _ _ _) as [pids st1]. simpl in *.
  destruct Hf as (_ & -> & _). apply dict_del_all_sublist.
Qed.

Lemma retry_check_active st :
  dict_wf (active_processes st) ->
  active_processes (check_completed w st)
  = filter (fun item => ~ exited w (ticks st) item) (active_processes st).
Proof.
  intros Hwf. unfold check_completed.
  pose proof (retry_poll_fold_frame (active_processes st) [] st) as Hf.
  pose proof (retry_poll_fold_pids (active_processes st) [] st) as Hp.
  destruct (fold_left _ _ _) as [pids st1]. simpl in *.
  destruct Hf as (_ & -> & _). rewrite Hp. by apply dict_del_filter.
Qed.

Lemma retry_check_completed st :
  completed_dates (check_completed w st)
  = completed_dates st
    ++ dates_of (filter (succeeded w (ticks st)) (active_processes st)).
Proof.
  unfold check_completed.
  pose proof (retry_poll_fold_completed (active_processes st) [] st) as H.
  destruct (fold_left _ _ _) as [pids st1]. done.
Qed.

Lemma retry_check_failed st :
  failed_dates (check_completed w st)
  = failed_dates st
    ++ dates_of (filter (failed w (ticks st)) (active_processes st)).
Proof.
  unfold check_completed.
  pose proof (retry_poll_fold_failed (active_processes st) [] st) as H.
  destruct (fold_left _ _ _) as [pids st1]. done.
Qed.

Lemma retry_check_remaining st :
  remaining_failures (check_completed w st)
  = remaining_failures
      (fold_left (poll_item w) (active_processes st) ([], st)).2.
Proof.
  unfold check_completed. destruct (fold_left _ _ _) as [pids st1]. done.
Qed.

Lemma retry_launch_active d st :
  active_processes (launch_next w d st)
  = match popen w (date_index st) with
    | Some p =>
        dict_set p (d, {| pid := p; job := date_index st |}) (active_processes st)
    | None => active_processes st
    end.
Proof.
  unfold launch_next, launch_retry_subprocess.
  by destruct (popen w (date_index st)).
Qed.

Lemma retry_launch_frame d st :
  let st' := launch_next w d st in
  dates_to_process st' = dates_to_process st
  /\ completed_dates st' = completed_dates st
  /\ failed_dates st' = failed_dates st
  /\ remaining_failures st' = remaining_failures st
  /\ date_index st' = S (date_index st)
  /\ ticks st' = ticks st
  /\ pc st' = LaunchHead.
Proof.
  unfold launch_next, launch_retry_subprocess.
  by destruct (popen w (date_index st)).
Qed.

Lemma retry_step_bound st :
  length (active_processes st) <= MAX_RETRY_PROCESSES ->
  length (active_processes (step w st)) <= MAX_RETRY_PROCESSES.
Proof.
  intros Hle. unfold step. destruct (pc st).
  - destruct (_ || _); simpl; [|done].
    etrans; [apply sublist_length, retry_check_active_sublist | done].
  - destruct (_ && _) eqn:G; simpl; [|done].
    apply andb_true_iff in G as [G _]. apply Nat.ltb_lt in G.
    destruct (dates_to_process st !! date_index st) as [d|]; simpl; [|done].
    rewrite retry_launch_active.
    destruct (popen w (date_index st)); [|lia].
    etrans; [apply dict_set_length_le | lia].
  - done.
Qed.

Lemma retry_step_grows_below st :
  length (active_processes st) < length (active_processes (step w st)) ->
  pc st = LaunchHead /\ length (active_processes st) < MAX_RETRY_PROCESSES.
Proof.
  unfold step. destruct (pc st).
  - destruct (_ || _); simpl; [|lia].
    intros Hlt.
    pose proof (sublist_length _ _ (retry_check_active_sublist st)). lia.
  - destruct (_ && _) eqn:G; simpl; [|lia].
    apply andb_true_iff in G as [G _]. apply Nat.ltb_lt in G. done.
  - lia.
Qed.
End retry_facts.

(** *** The dates the retry pass works on *)

Lemma parse_dates_omap (keys : list string) :
  (RetryFailed.parse_dates keys).1 = omap strptime keys.
Proof.
  induction keys as [|k keys IH]; [done|]. simpl.
  destruct (RetryFailed.parse_dates keys) as [ds lg]. simpl in IH. subst.
  by destruct (strptime k).
Qed.

Lemma loop_entry_dates (failed_jobs : Ledger) :
  RetryFailed.dates_to_process (RetryFailed.loop_entry failed_jobs)
  = omap strptime (dict_keys failed_jobs).
Proof.
  unfold RetryFailed.loop_entry. rewrite <- parse_dates_omap.
  by destruct (RetryFailed.parse_dates _).
Qed.

Lemma canonical_keys_spec (d : Ledger) k x :
  canonical_keys d = true -> k ∈ dict_keys d -> strptime k = Some x ->
  strftime x = k.
Proof.
  unfold canonical_keys. intros Hc Hk Hp.
  rewrite forallb_forall in Hc. apply list_elem_of_In in Hk.
  specialize (Hc k Hk). unfold canonical_key in Hc. rewrite Hp in Hc.
  by apply String.eqb_eq.
Qed.

Lemma omap_strptime_NoDup (keys : list string) :
  NoDup keys ->
  (forall k x, k ∈ keys -> strptime k = Some x -> strftime x = k) ->
  NoDup (omap strptime keys).
Proof.
  induction keys as [|k keys IH]; intros Hnd Hc; simpl; [apply NoDup_nil_2|].
  apply NoDup_cons in Hnd as [Hni Hnd].
  assert (NoDup (omap strptime keys)) as IH'.
  { apply IH; [done|]. intros k' x Hk'. apply Hc. apply elem_of_cons; auto. }
  destruct (strptime k) as [x|] eqn:E; [|done].
  apply NoDup_cons. split; [|done].
  intros Hin. apply list_elem_of_omap in Hin as (k' & Hk' & Hp').
  assert (strftime x = k') by (apply Hc; [apply elem_of_cons; auto | done]).
  assert (strftime x = k) by (apply Hc; [apply elem_of_cons; auto | done]).
  congruence.
Qed.

(** *** What the polls do to the remaining failures *)

Section retry_ledger.
Import RetryFailed.
Variable w : World.

Lemma retry_poll_item_remaining pids st p d proc :
  remaining_failures (poll_item w (pids, st) (p, (d, proc))).2
  = match poll w (ticks st) proc with
    | None => remaining_failures st
    | Some rc =>
        if (rc =? 0)%Z then
          (if dict_mem (strftime d) (remaining_failures st)
           then dict_del (strftime d) (remaining_failures st)
           else remaining_failures st)
        else
          match dict_get (strftime d) (remaining_failures st) with
          | Some r =>
              dict_set (strftime d)
                (retry_failed_record rc (now w (ticks st) proc) r)
                (remaining_failures st)
          | None => remaining_failures st
          end
    end.
Proof.
  simpl. destruct (poll w (ticks st) proc) as [rc|]; [|done].
  by destruct (rc =? 0)%Z.
Qed.

(** An item only touches the entry of its own date string. *)
Lemma retry_poll_item_other pids st item k :
  strftime item.2.1 ≠ k ->
  dict_get k (remaining_failures (poll_item w (pids, st) item).2)
  = dict_get k (remaining_failures st).
Proof.
  destruct item as [p [d proc]]. intros Hne. simpl in Hne.
  rewrite retry_poll_item_remaining.
  destruct (poll w (ticks st) proc) as [rc|]; [|done].
  destruct (rc =? 0)%Z.
  - destruct (dict_mem _ _); [by apply dict_get_del_ne | done].
  - destruct (dict_get (strftime d) _); [by apply dict_get_set_ne | done].
Qed.

Lemma retry_poll_item_wf pids st item :
  dict_wf (remaining_failures st) ->
  dict_wf (remaining_failures (poll_item w (pids, st) item).2).
Proof.
  destruct item as [p [d proc]]. intros Hwf.
  rewrite retry_poll_item_remaining.
  destruct (poll w (ticks st) proc) as [rc|]; [|done].
  destruct (rc =? 0)%Z.
  - destruct (dict_mem _ _); [by apply dict_wf_del | done].
  - destruct (dict_get (strftime d) _); [by apply dict_wf_set | done].
Qed.

(** No entry is added and the entries keep their order: a record is
    updated where it stands. *)
Lemma retry_poll_item_keys pids st item :
  dict_keys (remaining_failures (poll_item w (pids, st) item).2)
  `sublist_of` dict_keys (remaining_failures st).
Proof.
  destruct item as [p [d proc]].
  rewrite retry_poll_item_remaining.
  destruct (poll w (ticks st) proc) as [rc|]; [|done].
  destruct (rc =? 0)%Z.
  - destruct (dict_mem _ _); [|done].
    apply fmap_sublist, dict_del_sublist.
  - destruct (dict_get (strftime d) _) eqn:E; [|done].
    rewrite dict_keys_set_present; [done|]. by eapply dict_get_key.
Qed.

Lemma retry_poll_fold_other items pids st k :
  (forall item, item ∈ items -> strftime item.2.1 ≠ k) ->
  dict_get k (remaining_failures (fold_left (poll_item w) items (pids, st)).2)
  = dict_get k (remaining_failures st).
Proof.
  revert pids st. induction items as [|item items IH]; intros pids st Hne; [done|].
  cbn [fold_left].
  destruct (poll_item w (pids, st) item) as [pids1 st1] eqn:E.
  rewrite IH by (intros i Hi; apply Hne; apply elem_of_cons; auto).
  replace st1 with (poll_item w (pids, st) item).2 by (by rewrite E).
  apply retry_poll_item_other. apply Hne. apply elem_of_cons; auto.
Qed.

Lemma retry_poll_fold_wf items pids st :
  dict_wf (remaining_failures st) ->
  dict_wf (remaining_failures (fold_left (poll_item w) items (pids, st)).2).
Proof.
  revert pids st. induction items as [|item items IH]; intros pids st Hwf; [done|].
  cbn [fold_left].
  destruct (poll_item w (pids, st) item) as [pids1 st1] eqn:E.
  apply IH. replace st1 with (poll_item w (pids, st) item).2 by (by rewrite E).
  by apply retry_poll_item_wf.
Qed.

Lemma retry_poll_fold_keys items pids st :
  dict_keys (remaining_failures (fold_left (poll_item w) items (pids, st)).2)
  `sublist_of` dict_keys (remaining_failures st).
Proof.
  revert pids st. induction items as [|item items IH]; intros pids st; [done|].
  cbn [fold_left].
  destruct (poll_item w (pids, st) item) as [pids1 st1] eqn:E.
  etrans; [apply IH|].
  replace st1 with (poll_item w (pids, st) item).2 by (by rewrite E).
  apply retry_poll_item_keys.
Qed.
End retry_ledger.

(** *** The invariant of the retry pass, for a ledger with canonical keys *)

Section retry_invariant.
Import RetryFailed.
Variable w : World.
Variable failed_jobs : Ledger.
Hypothesis Hwf : dict_wf failed_jobs.
Hypothesis Hcanon : canonical_keys failed_jobs = true.

Lemma retry_date_ok x :
  x ∈ omap strptime (dict_keys failed_jobs) ->
  date_ok x /\ exists r0, dict_get (strftime x) failed_jobs = Some r0.
Proof.
  intros Hx. apply list_elem_of_omap in Hx as (k & Hk & Hp).
  split; [by eapply strptime_ok|].
  rewrite (canonical_keys_spec failed_jobs k x Hcanon Hk Hp).
  by apply dict_key_get.
Qed.

Lemma retry_dates_NoDup : NoDup (omap strptime (dict_keys failed_jobs)).
Proof.
  apply omap_strptime_NoDup; [exact Hwf|].
  intros k x. by apply canonical_keys_spec.
Qed.

Lemma retry_strftime_ne x y :
  x ∈ omap strptime (dict_keys failed_jobs) ->
  y ∈ omap strptime (dict_keys failed_jobs) ->
  x ≠ y -> strftime x ≠ strftime y.
Proof.
  intros Hx Hy Hne Heq. apply Hne.
  apply strftime_inj; [by apply retry_date_ok..|done].
Qed.

(** One item of the [for] loop keeps the loop invariant. *)
Lemma retry_poll_item_inv pids st item todo :
  retry_poll_inv w failed_jobs (item :: todo) st ->
  retry_poll_inv w failed_jobs todo (poll_item w (pids, st) item).2.
Proof.
  destruct item as [p [d proc]].
  intros (Hrem & Hnd & Hin & (HA & HB & HC) & Hwk).
  assert (Hwd : worker_of w (omap strptime (dict_keys failed_jobs)) d proc)
    by (apply (Hwk (p, (d, proc))); apply elem_of_cons; auto).
  assert (Hwk' : forall item, item ∈ todo ->
            worker_of w (omap strptime (dict_keys failed_jobs)) item.2.1 item.2.2)
    by (intros item Hi; apply Hwk; apply elem_of_cons; auto).
  rewrite dates_of_cons, <- app_comm_cons in Hnd, Hin.
  pose proof Hnd as Hnd0. apply NoDup_cons in Hnd as [Hfresh Hnd].
  assert (Hd : d ∈ omap strptime (dict_keys failed_jobs))
    by (apply Hin; apply elem_of_cons; auto).
  assert (HdC : d ∉ completed_dates st)
    by (intros ?; apply Hfresh; rewrite !elem_of_app; auto).
  assert (HdF : d ∉ failed_dates st)
    by (intros ?; apply Hfresh; rewrite !elem_of_app; auto).
  assert (HinC : forall x, x ∈ completed_dates st ->
                   x ∈ omap strptime (dict_keys failed_jobs))
    by (intros x Hx; apply Hin; rewrite elem_of_cons, !elem_of_app; auto).
  assert (HinF : forall x, x ∈ failed_dates st ->
                   x ∈ omap strptime (dict_keys failed_jobs))
    by (intros x Hx; apply Hin; rewrite elem_of_cons, !elem_of_app; auto).
  assert (HneC : forall x, x ∈ completed_dates st -> strftime d ≠ strftime x).
  { intros x Hx. apply retry_strftime_ne; [done | by apply HinC | by intros ->]. }
  assert (HneF : forall x, x ∈ failed_dates st -> strftime d ≠ strftime x).
  { intros x Hx. apply retry_strftime_ne; [done | by apply HinF | by intros ->]. }
  pose proof (retry_poll_item_wf w pids st (p, (d, proc)) Hrem) as Hrem'.
  pose proof (fun k => retry_poll_item_other w pids st (p, (d, proc)) k) as Hother.
  cbn [fst snd] in Hother.
  pose proof (retry_poll_item_remaining w pids st p d proc) as Heq.
  unfold retry_poll_inv, retry_outcomes.
  destruct (poll w (ticks st) proc) as [rc|] eqn:Epoll.
  2:{ simpl in *. rewrite Epoll in *. simpl.
      split; [done|]. split; [done|].
      split; [intros x Hx; apply Hin; apply elem_of_cons; auto|].
      split; [split; [exact HA | split; [exact HB | exact HC]] | exact Hwk']. }
  destruct (rc =? 0)%Z eqn:Erc.
  - (* the worker exited with 0 *)
    assert (Hk : dict_get (strftime d)
                   (remaining_failures (poll_item w (pids, st) (p, (d, proc))).2)
                 = None).
    { rewrite Heq. unfold dict_mem.
      destruct (dict_get (strftime d) (remaining_failures st)) eqn:E;
        [by apply dict_get_del_eq | done]. }
    assert (HCs : completed_dates (poll_item w (pids, st) (p, (d, proc))).2
                  = completed_dates st ++ [d])
      by (simpl; by rewrite Epoll, Erc).
    assert (HFs : failed_dates (poll_item w (pids, st) (p, (d, proc))).2
                  = failed_dates st)
      by (simpl; by rewrite Epoll, Erc).
    rewrite HCs, HFs. split; [done|]. split; [by rewrite perm_move_mid|].
    split; [intros x Hx; apply Hin; by rewrite perm_move_mid in Hx|].
    split; [|done]. split; [|split].
    + intros x Hx. apply elem_of_app in Hx as [Hx|Hx].
      * rewrite Hother by (by apply HneC). by apply HA.
      * apply list_elem_of_singleton in Hx as ->. split; [done|].
        apply Z.eqb_eq in Erc as ->. by exists (ticks st), proc.
    + intros x Hx.
      destruct (HB x Hx) as (r0 & t & pr & rc' & H0 & H1 & H2 & H3 & H4).
      exists r0, t, pr, rc'. rewrite Hother by (by apply HneF). done.
    + intros x Hx HxC HxF. rewrite not_elem_of_app in HxC.
      destruct HxC as [HxC Hxd]. rewrite list_elem_of_singleton in Hxd.
      rewrite Hother by (apply retry_strftime_ne; [done | done | congruence]).
      by apply HC.
  - (* the worker exited with another code *)
    apply Z.eqb_neq in Erc.
    destruct (proj2 (retry_date_ok d Hd)) as [r0 Hr0].
    assert (Hk : dict_get (strftime d)
                   (remaining_failures (poll_item w (pids, st) (p, (d, proc))).2)
                 = Some (retry_failed_record rc (now w (ticks st) proc) r0)).
    { rewrite Heq. rewrite (HC d Hd HdC HdF), Hr0. apply dict_get_set_eq. }
    assert (HCs : completed_dates (poll_item w (pids, st) (p, (d, proc))).2
                  = completed_dates st).
    { simpl. rewrite Epoll. by destruct (rc =? 0)%Z eqn:E; [apply Z.eqb_eq in E|]. }
    assert (HFs : failed_dates (poll_item w (pids, st) (p, (d, proc))).2
                  = failed_dates st ++ [d]).
    { simpl. rewrite Epoll. by destruct (rc =? 0)%Z eqn:E; [apply Z.eqb_eq in E|]. }
    rewrite HCs, HFs. split; [done|]. split; [by rewrite perm_move_end|].
    split; [intros x Hx; apply Hin; by rewrite perm_move_end in Hx|].
    split; [|done]. split; [|split].
    + intros x Hx. rewrite Hother by (by apply HneC). by apply HA.
    + intros x Hx. apply elem_of_app in Hx as [Hx|Hx].
      * destruct (HB x Hx) as (r1 & t & pr & rc' & H0 & H1 & H2 & H3 & H4).
        exists r1, t, pr, rc'. rewrite Hother by (by apply HneF). done.
      * apply list_elem_of_singleton in Hx as ->.
        exists r0, (ticks st), proc, rc. done.
    + intros x Hx HxC HxF. rewrite not_elem_of_app in HxF.
      destruct HxF as [HxF Hxd]. rewrite list_elem_of_singleton in Hxd.
      rewrite Hother by (apply retry_strftime_ne; [done | done | congruence]).
      by apply HC.
Qed.

Lemma retry_poll_fold_inv todo pids st :
  retry_poll_inv w failed_jobs todo st ->
  retry_poll_inv w failed_jobs [] (fold_left (poll_item w) todo (pids, st)).2.
Proof.
  revert pids st. induction todo as [|item todo IH]; intros pids st Hinv; [done|].
  cbn [fold_left].
  destruct (poll_item w (pids, st) item) as [pids1 st1] eqn:E.
  apply IH. replace st1 with (poll_item w (pids, st) item).2 by (by rewrite E).
  by apply retry_poll_item_inv.
Qed.

Lemma retry_inv_poll_inv st :
  retry_inv w failed_jobs st ->
  retry_poll_inv w failed_jobs (active_processes st) st.
Proof.
  intros (Hd & Hwa & Hwr & Hk & Hsub & Hout & Hwk).
  assert (Htake : take (date_index st) (omap strptime (dict_keys failed_jobs))
                  `sublist_of` omap strptime (dict_keys failed_jobs))
    by apply sublist_take.
  split; [done|]. split; [|split; [|done]].
  - eapply submseteq_NoDup; [|exact Hsub].
    eapply sublist_NoDup; [apply retry_dates_NoDup | done].
  - intros x Hx. eapply elem_of_sublist; [|exact Htake].
    by eapply submseteq_elem.
Qed.

Lemma retry_inv_check st :
  retry_inv w failed_jobs st -> retry_inv w failed_jobs (check_completed w st).
Proof.
  intros Hinv. pose proof (retry_inv_poll_inv st Hinv) as Hq.
  apply (retry_poll_fold_inv _ []) in Hq.
  destruct Hinv as (Hd & Hwa & Hwr & Hk & Hsub & Hout & Hwk).
  destruct Hq as (Hwr' & _ & _ & Hout' & _).
  pose proof (retry_check_frame w st) as (Hf1 & Hf2 & _).
  pose proof (retry_poll_fold_keys w (active_processes st) [] st) as Hkeys.
  pose proof (retry_poll_fold_completed w (active_processes st) [] st) as HC.
  pose proof (retry_poll_fold_failed w (active_processes st) [] st) as HF.
  unfold retry_inv.
  rewrite Hf1, Hf2, retry_check_active by done.
  rewrite retry_check_completed, retry_check_failed, retry_check_remaining.
  rewrite HC, HF in Hout'.
  split; [done|]. split.
  { unfold dict_wf, dict_keys. eapply sublist_NoDup; [exact Hwa|].
    apply fmap_sublist, sublist_filter. }
  split; [done|]. split; [by etrans|].
  split; [by rewrite poll_classes_Permutation|]. split; [done|].
  intros item Hi. apply Hwk. by apply list_elem_of_filter in Hi as [_ Hi].
Qed.

Lemma retry_inv_launch st d :
  dates_to_process st !! date_index st = Some d ->
  retry_inv w failed_jobs st -> retry_inv w failed_jobs (launch_next w d st).
Proof.
  intros Hlook (Hd & Hwa & Hwr & Hk & Hsub & Hout & Hwk).
  pose proof (retry_launch_frame w d st) as (Hf1 & Hf2 & Hf3 & Hf4 & Hf5 & _).
  unfold retry_inv.
  rewrite Hf1, Hf2, Hf3, Hf4, Hf5, retry_launch_active.
  rewrite Hd in Hlook. rewrite (take_S_r _ _ _ Hlook).
  split; [done|]. split.
  { destruct (popen w (date_index st)); [by apply dict_wf_set | done]. }
  split; [done|]. split; [done|]. split; [|split; [done|]].
  - destruct (popen w (date_index st)) as [p|].
    + etrans; [apply submseteq_skips_r, dates_of_dict_set|].
      rewrite <- (app_assoc (dates_of (active_processes st)) [d]).
      rewrite (Permutation_app_swap_app (dates_of (active_processes st)) [d]).
      rewrite (Permutation_app_comm (take _ _) [d]).
      by apply submseteq_skips_l.
    + by apply submseteq_inserts_r.
  - destruct (popen w (date_index st)) as [p|] eqn:Ep; [|done].
    intros item Hi. apply dict_set_elem in Hi as [->|Hi]; [|by apply Hwk].
    by split.
Qed.

Lemma retry_inv_step st :
  retry_inv w failed_jobs st -> retry_inv w failed_jobs (step w st).
Proof.
  intros Hinv. unfold step. destruct (pc st).
  - destruct (_ || _); [by apply retry_inv_check | done].
  - destruct (_ && _); [|done].
    destruct (dates_to_process st !! date_index st) as [d|] eqn:E; [|done].
    by apply retry_inv_launch.
  - done.
Qed.

Lemma retry_inv_entry : retry_inv w failed_jobs (loop_entry failed_jobs).
Proof.
  unfold retry_inv. rewrite loop_entry_dates.
  unfold loop_entry. destruct (parse_dates _) as [ds lg]. simpl.
  repeat split; try done; try apply NoDup_nil_2;
    intros; by match goal with H : _ ∈ [] |- _ => apply elem_of_nil in H end.
Qed.

Lemma retry_inv_exec n : retry_inv w failed_jobs (exec w n (loop_entry failed_jobs)).
Proof.
  apply retry_exec_invariant; [apply retry_inv_entry | apply retry_inv_step].
Qed.
End retry_invariant.

(** *** Every started worker has an outcome *)

Lemma poll_classes_elem w t (a : Active) x :
  x ∈ dates_of a ->
  x ∈ dates_of (filter (fun item => ~ exited w t item) a)
  \/ x ∈ dates_of (filter (succeeded w t) a)
  \/ x ∈ dates_of (filter (failed w t) a).
Proof.
  intros Hx. pose proof (poll_classes_Permutation w t a [] []) as Hp.
  rewrite !app_nil_r in Hp. simpl in Hp. rewrite <- Hp in Hx.
  by rewrite !elem_of_app in Hx.
Qed.

Section retry_accounting.
Import RetryFailed.
Variable w : World.
Variable failed_jobs : Ledger.
Hypothesis Hpids : pids_distinct w.

Lemma retry_accounted_check st :
  retry_accounted w failed_jobs st ->
  retry_accounted w failed_jobs (check_completed w st).
Proof.
  intros (Hd & Hwa & Hit & Hacc & _).
  pose proof (retry_check_frame w st) as (Hf1 & Hf2 & _ & Hf4).
  unfold retry_accounted.
  rewrite Hf1, Hf2, Hf4, retry_check_active by done.
  rewrite retry_check_completed, retry_check_failed.
  split; [done|]. split.
  { unfold dict_wf, dict_keys. eapply sublist_NoDup; [exact Hwa|].
    apply fmap_sublist, sublist_filter. }
  split.
  { intros item Hi. apply Hit. by apply list_elem_of_filter in Hi as [_ Hi]. }
  split; [|done].
  intros i d p Hi Hl Hp. rewrite !elem_of_app.
  destruct (Hacc i d p Hi Hl Hp) as [Ha|[Hc|Hf]]; [|by auto..].
  apply (poll_classes_elem w (ticks st)) in Ha as [?|[?|?]]; auto.
Qed.

Lemma retry_accounted_launch st d :
  dates_to_process st !! date_index st = Some d ->
  retry_accounted w failed_jobs st ->
  retry_accounted w failed_jobs (launch_next w d st).
Proof.
  intros Hlook (Hd & Hwa & Hit & Hacc & _).
  pose proof (retry_launch_frame w d st)
    as (Hf1 & Hf2 & Hf3 & _ & Hf5 & _ & Hf7).
  unfold retry_accounted.
  rewrite Hf1, Hf2, Hf3, Hf5, Hf7, retry_launch_active.
  rewrite Hd in Hlook.
  split; [done|].
  destruct (popen w (date_index st)) as [q|] eqn:Eq.
  - assert (Hfresh : q ∉ dict_keys (active_processes st)).
    { intros Hin. apply list_elem_of_fmap in Hin as ([p1 [d1 proc1]] & Hq & Hin).
      simpl in Hq. subst p1.
      destruct (Hit _ Hin) as (Hp1 & Hp2 & Hp3). simpl in Hp1, Hp2, Hp3.
      rewrite <- Hp1 in Hp2.
      pose proof (Hpids _ _ _ Hp2 Eq). lia. }
    rewrite dict_set_absent by done.
    split; [rewrite <- dict_set_absent by done; by apply dict_wf_set|].
    split.
    { intros item Hi. apply elem_of_app in Hi as [Hi|Hi].
      - destruct (Hit item Hi) as (? & ? & ?). repeat split; [done..|lia].
      - apply list_elem_of_singleton in Hi as ->. simpl.
        repeat split; [done|lia]. }
    split; [|done].
    intros i x p Hi Hl Hp.
    assert (Hmem : forall y, y ∈ dates_of (active_processes st) ->
              y ∈ dates_of (active_processes st
                           ++ [(q, (d, {| pid := q; job := date_index st |}))])).
    { intros y Hy. unfold dates_of. rewrite !fmap_app, elem_of_app. by left. }
    destruct (decide (i = date_index st)) as [->|Hne].
    + left. assert (x = d) by congruence. subst x.
      unfold dates_of. rewrite !fmap_app, elem_of_app. right. simpl.
      apply elem_of_cons; auto.
    + destruct (Hacc i x p ltac:(lia) Hl Hp) as [Ha|[Hc|Hf]]; auto.
  - split; [done|]. split.
    { intros item Hi. destruct (Hit item Hi) as (? & ? & ?).
      repeat split; [done..|lia]. }
    split; [|done].
    intros i x p Hi Hl Hp.
    destruct (decide (i = date_index st)) as [->|Hne]; [congruence|].
    apply (Hacc i x p); [lia | done..].
Qed.

Lemma retry_accounted_step st :
  retry_accounted w failed_jobs st -> retry_accounted w failed_jobs (step w st).
Proof.
  intros Hinv. unfold step. destruct (pc st) eqn:Hpc.
  - destruct (_ || _) eqn:G; [by apply retry_accounted_check|].
    destruct Hinv as (Hd & Hwa & Hit & Hacc & _).
    apply orb_false_iff in G as [G1 G2].
    apply Nat.ltb_ge in G1. apply negb_false_iff, bool_decide_eq_true in G2.
    unfold retry_accounted, leave. simpl.
    split; [done|]. split; [done|]. split; [exact Hit|]. split; [exact Hacc|].
    intros _. split; [done | by rewrite <- Hd].
  - destruct (_ && _).
    + destruct (dates_to_process st !! date_index st) as [d|] eqn:E;
        [by apply retry_accounted_launch | exact Hinv].
    + destruct Hinv as (Hd & Hwa & Hit & Hacc & _).
      unfold retry_accounted, sleep. simpl.
      split; [done|]. split; [done|]. split; [exact Hit|]. split; [exact Hacc|].
      done.
  - done.
Qed.

Lemma retry_accounted_exec n :
  retry_accounted w failed_jobs (exec w n (loop_entry failed_jobs)).
Proof.
  apply retry_exec_invariant; [|apply retry_accounted_step].
  unfold retry_accounted. rewrite loop_entry_dates.
  unfold loop_entry. destruct (parse_dates _) as [ds lg]. simpl.
  split; [done|]. split; [apply NoDup_nil_2|].
  split; [intros item Hi; by apply elem_of_nil in Hi|].
  split; [intros i d p Hi; lia | done].
Qed.
End retry_accounting.

(** *** Keys that do not parse *)

Section retry_unparsable.
Import RetryFailed.
Variable w : World.
Variable failed_jobs : Ledger.

(** Every worker of the retry pass works on a date parsed from a key. *)
Lemma retry_active_dates n item :
  item ∈ active_processes (exec w n (loop_entry failed_jobs)) ->
  item.2.1 ∈ omap strptime (dict_keys failed_jobs).
Proof.
  revert item.
  apply (retry_exec_invariant w (fun st =>
    dates_to_process st = omap strptime (dict_keys failed_jobs)
    /\ forall item, item ∈ active_processes st ->
         item.2.1 ∈ omap strptime (dict_keys failed_jobs))).
  - split; [apply loop_entry_dates|].
    unfold loop_entry. destruct (parse_dates _). simpl.
    intros item Hin. by apply elem_of_nil in Hin.
  - intros st [Hd Ha]. unfold step. destruct (pc st).
    + destruct (_ || _); [|done].
      split; [by rewrite (proj1 (retry_check_frame w st))|].
      intros item Hin. apply Ha.
      eapply elem_of_sublist; [exact Hin | apply retry_check_active_sublist].
    + destruct (_ && _); [|done].
      destruct (dates_to_process st !! date_index st) as [d|] eqn:E; [|done].
      split; [by rewrite (proj1 (retry_launch_frame w d st))|].
      intros item. rewrite retry_launch_active.
      destruct (popen w (date_index st)) as [p|]; [|by apply Ha].
      intros Hin. apply dict_set_elem in Hin as [->|Hin]; [|by apply Ha].
      simpl. rewrite <- Hd. by eapply list_elem_of_lookup_2.
    + done.
Qed.

Lemma parsed_not_unparsable x k :
  x ∈ omap strptime (dict_keys failed_jobs) -> strptime k = None ->
  strftime x ≠ k.
Proof.
  intros Hx Hk Heq. apply list_elem_of_omap in Hx as (k' & _ & Hp).
  apply strptime_ok, strptime_strftime in Hp. congruence.
Qed.

(** The entry of a key that does not parse is never touched. *)
Lemma retry_unparsable_kept n k :
  strptime k = None ->
  dict_get k (remaining_failures (exec w n (loop_entry failed_jobs)))
  = dict_get k failed_jobs.
Proof.
  intros Hk. induction n as [|n IH].
  - unfold exec, loop_entry. simpl. by destruct (parse_dates _).
  - rewrite retry_exec_S. rewrite <- IH.
    pose proof (retry_active_dates n) as Ha.
    set (st := exec w n (loop_entry failed_jobs)) in *.
    unfold step. destruct (pc st).
    + destruct (_ || _); [|done].
      rewrite retry_check_remaining. apply retry_poll_fold_other.
      intros item Hin. apply parsed_not_unparsable; [by apply Ha | done].
    + destruct (_ && _); [|done].
      destruct (dates_to_process st !! date_index st) as [d|]; [|done].
      by rewrite (proj1 (proj2 (proj2 (proj2 (retry_launch_frame w d st))))).
    + done.
Qed.

(** When every exit code is 0, no date is ever put on the failed list. *)
Lemma retry_no_failures n :
  (forall t p rc, poll w t p = Some rc -> rc = 0%Z) ->
  failed_dates (exec w n (loop_entry failed_jobs)) = [].
Proof.
  intros Hzero. induction n as [|n IH].
  - unfold exec, loop_entry. simpl. by destruct (parse_dates _).
  - rewrite retry_exec_S.
    set (st := exec w n (loop_entry failed_jobs)) in *.
    unfold step. destruct (pc st).
    + destruct (_ || _); [|done].
      rewrite retry_check_failed, IH. simpl.
      destruct (filter (failed w (ticks st)) (active_processes st))
        as [|item l] eqn:E; [done|].
      assert (Hin : item ∈ filter (failed w (ticks st)) (active_processes st))
        by (rewrite E; apply elem_of_cons; auto).
      apply list_elem_of_filter in Hin as [Hf _].
      apply failed_iff in Hf as (rc & Hrc & Hne).
      exfalso. apply Hne. by eapply Hzero.
    + destruct (_ && _); [|done].
      destruct (dates_to_process st !! date_index st) as [d|]; [|done].
      by rewrite (proj1 (proj2 (proj2 (retry_launch_frame w d st)))).
    + done.
Qed.
End retry_unparsable.

(** ** Invariants of the driver's loop *)

Section driver_invariants.
Import Driver.
Variable v : variant.
Variable cfg : Config.
Variable max_processes : nat.
Variable w : World.
Variable dates_to_process : list date.

Lemma dates_of_filter_elem (P : nat * (date * Popen) -> Prop)
    `{!forall x, Decision (P x)} (a : Active) x :
  x ∈ dates_of (filter P a) -> x ∈ dates_of a.
Proof.
  intros Hx. eapply elem_of_sublist; [exact Hx|].
  apply dates_of_sublist, sublist_filter.
Qed.

(** A poll moves dates between the three lists and invents none. *)
Lemma check_dates_subset t self x :
  let self' := check_completed_processes v cfg w t self in
  x ∈ dates_of (active_processes self') ++ completed_dates self'
      ++ failed_dates self' ->
  x ∈ dates_of (active_processes self) ++ completed_dates self
      ++ failed_dates self.
Proof.
  simpl. rewrite check_completed, check_failed. rewrite !elem_of_app.
  intros [Hx|[[Hx|Hx]|[Hx|Hx]]]; auto.
  - left. eapply elem_of_sublist; [exact Hx|].
    apply dates_of_sublist, check_active_sublist.
  - left. by eapply dates_of_filter_elem.
  - left. by eapply dates_of_filter_elem.
Qed.

(** Every date on one of the three lists belongs to a task whose worker
    was started. *)
Lemma driver_launched n fs0 x :
  let st := exec v cfg max_processes w dates_to_process n
              (run_entry v (init fs0)) in
  x ∈ dates_of (active_processes (self st)) ++ completed_dates (self st)
      ++ failed_dates (self st) ->
  exists j, j < date_index st /\ dates_to_process !! j = Some x
            /\ is_Some (popen w j).
Proof.
  simpl. revert x.
  apply (exec_invariant v cfg max_processes w dates_to_process (fun st =>
    forall x,
      x ∈ dates_of (active_processes (self st)) ++ completed_dates (self st)
          ++ failed_dates (self st) ->
      exists j, j < date_index st /\ dates_to_process !! j = Some x
                /\ is_Some (popen w j))).
  - intros x. destruct v; simpl; intros Hx; by apply elem_of_nil in Hx.
  - intros st IH x. unfold step. destruct (pc st).
    + destruct (_ || _); simpl; [|apply IH].
      intros Hx. apply IH. by eapply check_dates_subset.
    + destruct (_ && _); simpl; [|apply IH].
      destruct (dates_to_process !! date_index st) as [d|] eqn:E; simpl; [|apply IH].
      rewrite launch_active.
      destruct (launch_fields w (date_index st) d
                  (print_and_log (LogLaunching (S (date_index st))
                                    (length dates_to_process) d) (self st)))
        as (-> & -> & _).
      simpl.
      destruct (popen w (date_index st)) as [p|] eqn:Ep.
      * intros Hx. rewrite elem_of_app in Hx. destruct Hx as [Hx|Hx].
        -- apply (submseteq_elem _ _ _ (dates_of_dict_set _ _ _ _)) in Hx.
           apply elem_of_app in Hx as [Hx|Hx].
           ++ destruct (IH x) as (j & Hj & ?); [rewrite elem_of_app; auto|].
              exists j. split; [lia | done].
           ++ apply list_elem_of_singleton in Hx as ->.
              exists (date_index st). rewrite Ep. eauto.
        -- destruct (IH x) as (j & Hj & ?); [rewrite elem_of_app; auto|].
           exists j. split; [lia | done].
      * intros Hx. destruct (IH x Hx) as (j & Hj & ?).
        exists j. split; [lia | done].
    + apply IH.
Qed.
End driver_invariants.

Section pipeline_ledger.
Import Driver.
Variable cfg : Config.
Variable max_processes : nat.
Variable w : World.
Variable dates_to_process : list date.

#[local] Arguments log_failure : simpl never.

(** Once written by the pipeline driver, the ledger file parses. *)
Lemma log_failure_loadable ts d rc self :
  exists L,
    FAILED_JOBS_FILE (fs (log_failure PipelineDriver cfg ts d rc self))
    = Some (JsonObject L).
Proof.
  unfold log_failure.
  destruct (FAILED_JOBS_FILE (fs self)) as [f|]; [|simpl; eauto].
  destruct (json_load f); simpl; eauto.
Qed.

Lemma poll_fold_loadable t items pids self :
  (exists L, FAILED_JOBS_FILE (fs self) = Some (JsonObject L)) ->
  exists L,
    FAILED_JOBS_FILE
      (fs (fold_left (poll_item PipelineDriver cfg w t) items (pids, self)).2)
    = Some (JsonObject L).
Proof.
  revert pids self. induction items as [|[p [d proc]] items IH];
    intros pids self Hl; [done|].
  simpl. destruct (poll w t proc) as [rc|]; [|by apply IH].
  destruct (rc =? 0)%Z; apply IH; [done|]. apply log_failure_loadable.
Qed.

(** At every instant of a run of the pipeline driver, the ledger file is
    a JSON object whose keys are date strings of dates that failed in
    this run. *)
Lemma pipeline_ledger_scoped n fs0 :
  let st := exec PipelineDriver cfg max_processes w dates_to_process n
              (run_entry PipelineDriver (init fs0)) in
  (exists L, FAILED_JOBS_FILE (fs (self st)) = Some (JsonObject L))
  /\ forall k, k ∈ dict_keys (ledger PipelineDriver (fs (self st))) ->
       exists x, x ∈ failed_dates (self st) /\ k = strftime x.
Proof.
  simpl.
  apply (exec_invariant PipelineDriver cfg max_processes w dates_to_process
    (fun st =>
       (exists L, FAILED_JOBS_FILE (fs (self st)) = Some (JsonObject L))
       /\ forall k, k ∈ dict_keys (ledger PipelineDriver (fs (self st))) ->
            exists x, x ∈ failed_dates (self st) /\ k = strftime x)).
  - simpl. split; [eauto|]. intros k Hk. by apply elem_of_nil in Hk.
  - intros st [Hl Hk]. unfold step. destruct (pc st).
    + destruct (_ || _); cbn [self]; [|done]. rewrite check_fs. split.
      * by apply poll_fold_loadable.
      * intros k Hin. rewrite check_failed.
        apply poll_fold_ledger_keys in Hin as [Hin|(item & Hi & Hf & ->)].
        -- destruct (Hk k Hin) as (x & Hx & ->). exists x.
           rewrite elem_of_app. auto.
        -- exists item.2.1. split; [|done]. rewrite elem_of_app. right.
           destruct item as [p [d proc]]. apply dates_of_elem.
           exists p, proc. by apply list_elem_of_filter.
    + destruct (_ && _); cbn [self]; [|done].
      destruct (dates_to_process !! date_index st) as [d|]; cbn [self]; [|done].
      destruct (launch_fields w (date_index st) d
                  (print_and_log (LogLaunching (S (date_index st))
                                    (length dates_to_process) d) (self st)))
        as (_ & -> & ->).
      done.
    + done.
Qed.
End pipeline_ledger.

(** * The claims *)

(** C1. Concurrency bound.  For every task list and every bound
    [N >= 1], after any number of transitions of a pass (the main pass of
    either driver, and the retry pass with its bound of 2) the active set
    holds at most [N] entries; a transition enlarges the active set only
    from the test of the launch loop and only when the set is strictly
    below the bound; and the transition that leaves the head of the
    polling loop removes exactly the workers that have exited, before any
    launch of that iteration. *)
Theorem concurrency_bound (v : Driver.variant) (cfg : Config) (N : nat)
    (w : World) (dates : list date) (fs0 : FileSystem) (n : nat)
    (wr : World) (failed_jobs : Ledger) (m : nat) :
  1 <= N ->
  let st := Driver.exec v cfg N w dates n (Driver.run_entry v (Driver.init fs0)) in
  let st' := Driver.step v cfg N w dates st in
  let rt := RetryFailed.exec wr m (RetryFailed.loop_entry failed_jobs) in
  let rt' := RetryFailed.step wr rt in
  (length (Driver.active_processes (Driver.self st)) <= N
   /\ (length (Driver.active_processes (Driver.self st'))
       <= length (Driver.active_processes (Driver.self st))
       \/ (Driver.pc st = LaunchHead
           /\ length (Driver.active_processes (Driver.self st)) < N))
   /\ (Driver.pc st = LoopHead -> Driver.pc st' = LaunchHead ->
       Driver.active_processes (Driver.self st')
       = filter (fun item => ~ exited w (Driver.ticks st) item)
           (Driver.active_processes (Driver.self st))))
  /\ (length (RetryFailed.active_processes rt) <= RetryFailed.MAX_RETRY_PROCESSES
      /\ (length (RetryFailed.active_processes rt')
          <= length (RetryFailed.active_processes rt)
          \/ (RetryFailed.pc rt = LaunchHead
              /\ length (RetryFailed.active_processes rt)
                 < RetryFailed.MAX_RETRY_PROCESSES))
      /\ (RetryFailed.pc rt = LoopHead -> RetryFailed.pc rt' = LaunchHead ->
          RetryFailed.active_processes rt'
          = filter (fun item => ~ exited wr (RetryFailed.ticks rt) item)
              (RetryFailed.active_processes rt))).
Proof.
  intros HN st st' rt rt'. split; [split; [|split] | split; [|split]].
  - subst st.
    apply (exec_invariant v cfg N w dates
             (fun s => length (Driver.active_processes (Driver.self s)) <= N)).
    + destruct v; simpl; lia.
    + apply step_bound.
  - destruct (decide (length (Driver.active_processes (Driver.self st'))
                      <= length (Driver.active_processes (Driver.self st))))
      as [|Hgt]; [by left | right].
    apply (step_grows_below v cfg N w dates). fold st'. lia.
  - intros Hpc Hpc'. subst st'. unfold Driver.step in *. rewrite Hpc in *.
    destruct (_ || _); [|done]. simpl.
    apply check_active. subst st. apply exec_wf.
  - subst rt.
    apply (retry_exec_invariant wr
             (fun s => length (RetryFailed.active_processes s)
                       <= RetryFailed.MAX_RETRY_PROCESSES)).
    + unfold RetryFailed.loop_entry. destruct (RetryFailed.parse_dates _).
      simpl. lia.
    + apply retry_step_bound.
  - destruct (decide (length (RetryFailed.active_processes rt')
                      <= length (RetryFailed.active_processes rt)))
      as [|Hgt]; [by left | right].
    apply (retry_step_grows_below wr). fold rt'. lia.
  - intros Hpc Hpc'. subst rt'. unfold RetryFailed.step in *. rewrite Hpc in *.
    destruct (_ || _); [|done].
    apply retry_check_active. subst rt.
    apply (retry_exec_invariant wr
             (fun s => dict_wf (RetryFailed.active_processes s))).
    + unfold RetryFailed.loop_entry. destruct (RetryFailed.parse_dates _).
      apply NoDup_nil_2.
    + intros s Hwf. unfold RetryFailed.step. destruct (RetryFailed.pc s).
      * destruct (_ || _); [|done]. unfold dict_wf, dict_keys.
        eapply sublist_NoDup; [exact Hwf|].
        apply fmap_sublist, retry_check_active_sublist.
      * destruct (_ && _); [|done].
        destruct (_ !! _) as [d|]; [|done]. rewrite retry_launch_active.
        destruct (popen wr _); [by apply dict_wf_set | done].
      * done.
Qed.

Lemma concurrency_bound_witness :
  1 <= 2
  /\ length (Driver.active_processes (Driver.self
       (Driver.exec Driver.PipelineDriver src_config 2 day2_fails three_days 3
          (Driver.run_entry Driver.PipelineDriver (Driver.init no_files))))) <= 2.
Proof.
  split; [lia|].
  apply (concurrency_bound Driver.PipelineDriver src_config 2 day2_fails
           three_days no_files 3 retry_fails [("1988-04-01", record_of "1988-04-01")] 3).
  lia.
Defined.

(** C3. Outcome of a terminated worker.  One call of
    [check_completed_processes] sorts the active workers into three
    classes: a worker still running stays active; a worker that exited is
    removed from the active set and its date is appended exactly once,
    to the completed list when the exit code is 0 and to the failed list
    otherwise; and for every worker that exited nonzero the failure ledger
    then holds, under the date string of the worker, a record that names
    this date, the full configured variable set, and a message made of
    the nonzero exit code of a worker of that date polled in this call
    (the worker's own code when no other failing worker of the call has
    the same date string). *)
Theorem worker_outcome (v : Driver.variant) (cfg : Config) (w : World)
    (t : nat) (self : Driver.DownloadDriver) :
  dict_wf (Driver.active_processes self) ->
  let self' := Driver.check_completed_processes v cfg w t self in
  Driver.active_processes self'
  = filter (fun item => ~ exited w t item) (Driver.active_processes self)
  /\ Driver.completed_dates self'
     = Driver.completed_dates self
       ++ dates_of (filter (succeeded w t) (Driver.active_processes self))
  /\ Driver.failed_dates self'
     = Driver.failed_dates self
       ++ dates_of (filter (failed w t) (Driver.active_processes self))
  /\ forall p d proc rc,
       (p, (d, proc)) ∈ Driver.active_processes self ->
       poll w t proc = Some rc -> rc ≠ 0%Z ->
       exists r p' d' proc' rc',
         Driver.recorded v (Driver.fs self') (strftime d) = Some r
         /\ rec_date r = strftime d
         /\ variables_to_retry r = dict_keys (VARIABLE_AGG_MAP cfg)
         /\ error_message r
            = "Subprocess failed with exit code " +:+ pretty rc'
         /\ last_attempt r = now w t proc'
         /\ (p', (d', proc')) ∈ Driver.active_processes self
         /\ strftime d' = strftime d
         /\ poll w t proc' = Some rc' /\ rc' ≠ 0%Z
         /\ ((forall q e pr, (q, (e, pr)) ∈ Driver.active_processes self ->
                failed w t (q, (e, pr)) -> strftime e = strftime d ->
                (q, (e, pr)) = (p, (d, proc))) ->
             rc' = rc).
Proof.
  intros Hwf self'. subst self'.
  split; [by apply check_active|].
  split; [apply check_completed|].
  split; [apply check_failed|].
  intros p d proc rc Hin Hrc Hne.
  assert (Hf : failed w t (p, (d, proc))) by (apply failed_iff; eauto).
  rewrite check_fs.
  destruct (poll_fold_recorded v cfg w t (Driver.active_processes self) []
              self p d proc Hin Hf)
    as (p' & d' & proc' & rc' & Hin' & Hrc' & Hne' & Hk & Hrec).
  eexists _, p', d', proc', rc'. split; [exact Hrec|].
  repeat split; try done.
  intros Huniq.
  assert (Heq : (p', (d', proc')) = (p, (d, proc))).
  { apply Huniq; [done | apply failed_iff; eauto | done]. }
  simplify_eq. congruence.
Qed.

Lemma worker_outcome_witness :
  let self :=
    Driver.with_active [(101, (Date 1988 4 1, {| pid := 101; job := 1 |}))]
      (Driver.init no_files) in
  dict_wf (Driver.active_processes self)
  /\ Driver.failed_dates
       (Driver.check_completed_processes Driver.PipelineDriver src_config
          day2_fails 2 self)
     = [Date 1988 4 1].
Proof.
  split.
  - apply NoDup_cons. split; [apply not_elem_of_nil | apply NoDup_nil_2].
  - pose proof (worker_outcome Driver.PipelineDriver src_config day2_fails 2
                  (Driver.with_active
                     [(101, (Date 1988 4 1, {| pid := 101; job := 1 |}))]
                     (Driver.init no_files))) as H.
    simpl in H. destruct H as (_ & _ & H & _).
    + apply NoDup_cons. split; [apply not_elem_of_nil | apply NoDup_nil_2].
    + exact H.
Defined.

(** C8. Last write wins.  Recording a failure for a date a second time
    replaces the record of that date: the ledger then holds the second
    record under the date string, its keys are those it had after the
    first recording (no second entry), and no key occurs twice.  Loading
    the ledger right after the pipeline driver cleared it yields the empty
    mapping. *)
Theorem ledger_last_write_wins (v : Driver.variant) (cfg : Config)
    (ts1 ts2 : string) (rc1 rc2 : Z) (d : date) (self : Driver.DownloadDriver) :
  dict_wf (Driver.ledger v (Driver.fs self)) ->
  let self1 := Driver.log_failure v cfg ts1 d rc1 self in
  let self2 := Driver.log_failure v cfg ts2 d rc2 self1 in
  Driver.recorded v (Driver.fs self2) (strftime d)
  = Some (Driver.failure_data cfg (strftime d) rc2 ts2)
  /\ dict_keys (Driver.ledger v (Driver.fs self2))
     = dict_keys (Driver.ledger v (Driver.fs self1))
  /\ length (Driver.ledger v (Driver.fs self2))
     = length (Driver.ledger v (Driver.fs self1))
  /\ dict_wf (Driver.ledger v (Driver.fs self2))
  /\ (forall k, k ≠ strftime d ->
        Driver.recorded v (Driver.fs self2) k
        = Driver.recorded v (Driver.fs self) k)
  /\ (FAILED_JOBS_FILE (Driver.fs (Driver.self
        (Driver.run_entry Driver.PipelineDriver self))) ≫= json_load) = Some []
  /\ Driver.ledger Driver.PipelineDriver
       (Driver.fs (Driver.self (Driver.run_entry Driver.PipelineDriver self)))
     = [].
Proof.
  intros Hwf self1 self2. subst self1 self2. unfold Driver.recorded.
  rewrite !log_failure_ledger.
  assert (Hk : strftime d ∈ dict_keys
            (dict_set (strftime d) (Driver.failure_data cfg (strftime d) rc1 ts1)
               (Driver.ledger v (Driver.fs self)))).
  { eapply dict_get_key. apply dict_get_set_eq. }
  split; [apply dict_get_set_eq|].
  split; [by apply dict_keys_set_present|].
  split; [by apply dict_set_length_present|].
  split; [by do 2 apply dict_wf_set|].
  split; [|done].
  intros k Hne. by rewrite !dict_get_set_ne.
Qed.

Lemma ledger_last_write_wins_witness :
  let self := Driver.init no_files in
  dict_wf (Driver.ledger Driver.PipelineDriver (Driver.fs self))
  /\ Driver.recorded Driver.PipelineDriver
       (Driver.fs (Driver.log_failure Driver.PipelineDriver src_config
          "1988-05-01T00:00:02" (Date 1988 4 1) 2
          (Driver.log_failure Driver.PipelineDriver src_config
             "1988-05-01T00:00:01" (Date 1988 4 1) 1 self)))
       (strftime (Date 1988 4 1))
     = Some (Driver.failure_data src_config (strftime (Date 1988 4 1)) 2
               "1988-05-01T00:00:02").
Proof.
  split; [apply NoDup_nil_2|].
  apply (ledger_last_write_wins Driver.PipelineDriver src_config
           "1988-05-01T00:00:01" "1988-05-01T00:00:02" 1 2
           (Date 1988 4 1) (Driver.init no_files)).
  apply NoDup_nil_2.
Defined.

(** C9. Launch failure.  When starting the worker of a task raises, the
    transition of the launch loop logs the error and changes nothing else
    but the task index: the active set, the completed and failed lists
    and the files (hence the ledger) are as before, and the loop goes on
    to the test for the next task.  When the task list has no repeated
    date, the date of such a task is never active, completed or failed in
    the pass. *)
Theorem launch_failure_dropped (v : Driver.variant) (cfg : Config) (N : nat)
    (w : World) (dates : list date) (i : nat) (d : date) :
  dates !! i = Some d -> popen w i = None ->
  (forall st : Driver.RunState,
     Driver.pc st = LaunchHead -> Driver.date_index st = i ->
     length (Driver.active_processes (Driver.self st)) < N ->
     let st' := Driver.step v cfg N w dates st in
     Driver.active_processes (Driver.self st')
     = Driver.active_processes (Driver.self st)
     /\ Driver.completed_dates (Driver.self st')
        = Driver.completed_dates (Driver.self st)
     /\ Driver.failed_dates (Driver.self st')
        = Driver.failed_dates (Driver.self st)
     /\ Driver.fs (Driver.self st') = Driver.fs (Driver.self st)
     /\ Driver.log (Driver.self st')
        = Driver.log (Driver.self st)
          ++ [LogLaunching (S i) (length dates) d; LogLaunchError d]
     /\ Driver.date_index st' = S i
     /\ Driver.ticks st' = Driver.ticks st
     /\ Driver.pc st' = LaunchHead)
  /\ (NoDup dates ->
      forall fs0 n,
        let st := Driver.exec v cfg N w dates n
                    (Driver.run_entry v (Driver.init fs0)) in
        (d ∉ dates_of (Driver.active_processes (Driver.self st)))
        /\ (d ∉ Driver.completed_dates (Driver.self st))
        /\ (d ∉ Driver.failed_dates (Driver.self st))).
Proof.
  intros Hd Hp. split.
  - intros st Hpc Hi Hlen. unfold Driver.step. rewrite Hpc, Hi.
    apply Nat.ltb_lt in Hlen. rewrite Hlen.
    pose proof (lookup_lt_Some _ _ _ Hd) as Hlt. apply Nat.ltb_lt in Hlt.
    rewrite Hlt, Hd. simpl. unfold Driver.launch_subprocess. rewrite Hp. simpl.
    repeat split; try done. by rewrite <- app_assoc.
  - intros Hnd fs0 n st.
    assert (Hno : d ∉ dates_of (Driver.active_processes (Driver.self st))
                      ++ Driver.completed_dates (Driver.self st)
                      ++ Driver.failed_dates (Driver.self st)).
    { intros Hin. apply driver_launched in Hin as (j & _ & Hj & Hsome).
      rewrite (NoDup_lookup _ _ _ _ Hnd Hj Hd) in Hsome.
      rewrite Hp in Hsome. by destruct Hsome. }
    rewrite !not_elem_of_app in Hno. tauto.
Qed.

Lemma launch_failure_dropped_witness :
  three_days !! 1 = Some (Date 1988 4 1) /\ popen second_launch_fails 1 = None
  /\ NoDup three_days
  /\ Date 1988 4 1 ∉ Driver.completed_dates (Driver.self
       (Driver.exec Driver.PipelineDriver src_config 2 second_launch_fails
          three_days 12 (Driver.run_entry Driver.PipelineDriver
                           (Driver.init no_files)))).
Proof.
  assert (Hnd : NoDup three_days) by (by apply (bool_decide_unpack _)).
  split; [reflexivity|]. split; [reflexivity|]. split; [exact Hnd|].
  apply (launch_failure_dropped Driver.PipelineDriver src_config 2
           second_launch_fails three_days 1 (Date 1988 4 1)
           eq_refl eq_refl).
  exact Hnd.
Defined.

(** The driver of [src/driver.py] never writes [data/failed_jobs.json]. *)
Lemma src_poll_fold_file (cfg : Config) (w : World) (t : nat) (items : Active)
    (pids : list nat) (self : Driver.DownloadDriver) :
  FAILED_JOBS_FILE (Driver.fs
    (fold_left (Driver.poll_item Driver.SrcDriver cfg w t) items (pids, self)).2)
  = FAILED_JOBS_FILE (Driver.fs self).
Proof.
  revert pids self. induction items as [|[p [d proc]] items IH];
    intros pids self; [done|].
  simpl. destruct (poll w t proc) as [rc|]; [|apply IH].
  destruct (rc =? 0)%Z; by rewrite IH.
Qed.

Lemma src_ledger_file_untouched (cfg : Config) (N : nat) (w : World)
    (dates : list date) (fs0 : FileSystem) (n : nat) :
  FAILED_JOBS_FILE (Driver.fs (Driver.self
    (Driver.exec Driver.SrcDriver cfg N w dates n
       (Driver.run_entry Driver.SrcDriver (Driver.init fs0)))))
  = FAILED_JOBS_FILE fs0.
Proof.
  apply (exec_invariant Driver.SrcDriver cfg N w dates
           (fun st => FAILED_JOBS_FILE (Driver.fs (Driver.self st))
                      = FAILED_JOBS_FILE fs0)); [reflexivity|].
  intros st IH. unfold Driver.step. destruct (Driver.pc st).
  - destruct (_ || _); cbn [Driver.self]; [|done].
    by rewrite check_fs, src_poll_fold_file.
  - destruct (_ && _); cbn [Driver.self]; [|done].
    destruct (dates !! Driver.date_index st) as [d|]; cbn [Driver.self]; [|done].
    by rewrite (proj2 (proj2 (launch_fields w _ _ _))).
  - done.
Qed.

(** A run of the pipeline driver starts by overwriting the ledger file
    with the empty mapping, before any task is launched, and at every
    later instant of the main pass the ledger file is a JSON object whose
    keys are date strings of dates that failed in this run. *)
Theorem pipeline_ledger_reset (cfg : Config) (N : nat) (w : World)
    (dates : list date) (fs0 : FileSystem) :
  let entry := Driver.run_entry Driver.PipelineDriver (Driver.init fs0) in
  (FAILED_JOBS_FILE (Driver.fs (Driver.self entry)) = Some (JsonObject [])
   /\ Driver.ledger Driver.PipelineDriver (Driver.fs (Driver.self entry)) = []
   /\ Driver.active_processes (Driver.self entry) = []
   /\ Driver.date_index entry = 0
   /\ Driver.log (Driver.self entry) = [LogCleared])
  /\ (forall n,
        let st := Driver.exec Driver.PipelineDriver cfg N w dates n entry in
        (exists L, FAILED_JOBS_FILE (Driver.fs (Driver.self st))
                   = Some (JsonObject L))
        /\ forall k,
             k ∈ dict_keys (Driver.ledger Driver.PipelineDriver
                              (Driver.fs (Driver.self st))) ->
             exists x, x ∈ Driver.failed_dates (Driver.self st)
                       /\ k = strftime x).
Proof.
  intros entry. split; [done|]. intros n. apply pipeline_ledger_scoped.
Qed.

(** C4 (the code at the failing input).  The driver of [src/driver.py]
    does not reset the ledger that its retry pass reads: at every instant
    of its main pass [data/failed_jobs.json] is as the run found it.
    Started on a ledger file that holds a record of an earlier run, with
    the worker of 1988-04-01 exiting with 1, it records the failure in
    [failed_jobs/1988-04-01.json]; the retry pass it starts then retries
    the date of the earlier run and never 1988-04-01.  Started with no
    ledger file, the same run ends with the retry pass finding nothing to
    retry and writing the empty terminal failure file. *)
Theorem src_driver_keeps_stale_ledger (cfg : Config) (N : nat) (w : World)
    (dates : list date) (fs0 : FileSystem) (n : nat) :
  FAILED_JOBS_FILE (Driver.fs (Driver.self
    (Driver.exec Driver.SrcDriver cfg N w dates n
       (Driver.run_entry Driver.SrcDriver (Driver.init fs0)))))
  = FAILED_JOBS_FILE fs0
  /\ (let stale := ledger_file [("1979-10-01", record_of "1979-10-01")] in
      exists drv,
        Driver.driver_main Driver.SrcDriver src_config 2 day2_fails three_days
          20 (Some retry_fails) 20 stale = Some (1%Z, drv)
        /\ Driver.failed_dates drv = [Date 1988 4 1]
        /\ FAILED_JOBS_FILE (Driver.fs drv)
           = Some (JsonObject [("1979-10-01", record_of "1979-10-01")])
        /\ dict_keys (FAILED_JOBS_DIR (Driver.fs drv)) = ["1988-04-01"]
        /\ ULTIMATE_FAILURE_FILE (Driver.fs drv)
           = Some (JsonObject
                     [("1979-10-01",
                       RetryFailed.retry_failed_record 3 "1988-05-02T00:00:01"
                         (record_of "1979-10-01"))]))
  /\ (exists drv,
        Driver.driver_main Driver.SrcDriver src_config 2 day2_fails three_days
          20 (Some retry_fails) 20 no_files = Some (1%Z, drv)
        /\ Driver.failed_dates drv = [Date 1988 4 1]
        /\ FAILED_JOBS_FILE (Driver.fs drv) = None
        /\ dict_keys (FAILED_JOBS_DIR (Driver.fs drv)) = ["1988-04-01"]
        /\ ULTIMATE_FAILURE_FILE (Driver.fs drv) = Some (JsonObject [])
        /\ last (Driver.log drv) = Some (LogRetryFinished 0)).
Proof.
  split; [apply src_ledger_file_untouched|]. split.
  - eexists. split; [vm_compute; reflexivity|]. repeat split.
  - eexists. split; [vm_compute; reflexivity|]. repeat split.
Qed.

(** C5 (amended).  Neither loader raises.  [log_failure] of the pipeline
    driver treats an absent or unparsable ledger file as the empty mapping
    and writes a ledger that holds the new record alone.  The retry step
    treats an absent ledger file (and an empty ledger) as "nothing to
    retry": it writes the empty mapping to the terminal failure file, once,
    and returns 0.  On an unparsable ledger file the retry step logs an
    error and returns 1 without writing the terminal failure file. *)
Theorem ledger_load_recovery (cfg : Config) (w : World) (fuel : nat)
    (ts : string) (d : date) (rc : Z) (self : Driver.DownloadDriver)
    (fs : FileSystem) :
  ((FAILED_JOBS_FILE (Driver.fs self) = None
    \/ FAILED_JOBS_FILE (Driver.fs self) = Some Unparsable) ->
   Driver.ledger Driver.PipelineDriver (Driver.fs self) = []
   /\ FAILED_JOBS_FILE
        (Driver.fs (Driver.log_failure Driver.PipelineDriver cfg ts d rc self))
      = Some (JsonObject
                [(strftime d, Driver.failure_data cfg (strftime d) rc ts)]))
  /\ (FAILED_JOBS_FILE fs = None
      \/ FAILED_JOBS_FILE fs = Some (JsonObject []) ->
      RetryFailed.main w fuel fs
      = Some (0%Z, write_ultimate_failure_file (json_dump []) fs,
              RetryFailed.early
                (match FAILED_JOBS_FILE fs with
                 | None => LogNoFailureFile
                 | Some _ => LogLedgerEmpty
                 end)))
  /\ (FAILED_JOBS_FILE fs = Some Unparsable ->
      RetryFailed.main w fuel fs
      = Some (1%Z, fs, RetryFailed.early LogCouldNotRead)).
Proof.
  split; [|split].
  - unfold Driver.ledger, Driver.log_failure. intros [H|H]; rewrite H; done.
  - unfold RetryFailed.main. intros [H|H]; rewrite H; done.
  - unfold RetryFailed.main. intros H. by rewrite H.
Qed.

Lemma ledger_load_recovery_witness :
  FAILED_JOBS_FILE corrupt_ledger = Some Unparsable
  /\ RetryFailed.main retry_succeeds 10 corrupt_ledger
     = Some (1%Z, corrupt_ledger, RetryFailed.early LogCouldNotRead).
Proof.
  split; [reflexivity|].
  apply (ledger_load_recovery src_config retry_succeeds 10 ""
           (Date 1988 4 1) 1 (Driver.init corrupt_ledger) corrupt_ledger).
  reflexivity.
Defined.

(** C5, as stated, fails in the retry step: on a ledger file that does not
    parse, the retry step does not write an empty terminal failure file and
    does not return 0. *)
Lemma retry_unparsable_ledger_fails :
  ~ (exists st,
       RetryFailed.main retry_succeeds 10 corrupt_ledger
       = Some (0%Z, write_ultimate_failure_file (json_dump []) corrupt_ledger, st))
  /\ exists fs' st,
       RetryFailed.main retry_succeeds 10 corrupt_ledger = Some (1%Z, fs', st)
       /\ ULTIMATE_FAILURE_FILE fs' = None /\ ultimate_writes fs' = 0.
Proof.
  split.
  - intros [st H]. vm_compute in H. discriminate.
  - eexists _, _. split; [reflexivity|]. split; reflexivity.
Qed.

(** C6 (amended).  The exit code of the driver process is 0 exactly when
    no worker of the main pass exited nonzero, that is when the failed
    list is empty when the polling loop ends, and 1 otherwise; the retry
    pass never changes that list, so its outcome has no part in the exit
    code. *)
Theorem driver_exit_code (v : Driver.variant) (cfg : Config) (N : nat)
    (w : World) (dates : list date) (fuel : nat) (retry_world : option World)
    (retry_fuel : nat) (fs0 : FileSystem) (code : Z)
    (driver : Driver.DownloadDriver) :
  Driver.driver_main v cfg N w dates fuel retry_world retry_fuel fs0
  = Some (code, driver) ->
  let st := Driver.exec v cfg N w dates fuel
              (Driver.run_entry v (Driver.init fs0)) in
  Driver.pc st = LoopExit
  /\ Driver.failed_dates driver = Driver.failed_dates (Driver.self st)
  /\ (code = 0%Z <-> Driver.failed_dates (Driver.self st) = [])
  /\ (code ≠ 0%Z -> code = 1%Z).
Proof.
  intros H st. unfold Driver.driver_main, Driver.run in H. fold st in H.
  destruct (Driver.pc st) eqn:Hpc; try done.
  destruct (Driver.retry_block retry_world retry_fuel (Driver.self st))
    as [self3|] eqn:Hr; [|done].
  assert (Hf : Driver.failed_dates self3 = Driver.failed_dates (Driver.self st)).
  { unfold Driver.retry_block in Hr.
    destruct (Driver.failed_dates (Driver.self st)) as [|x l] eqn:Ef.
    - by simplify_eq.
    - destruct retry_world as [wr|]; [|by simplify_eq].
      destruct (RetryFailed.main _ _ _) as [[[rc fs'] ?]|]; by simplify_eq. }
  simplify_eq. split; [done|]. split; [done|]. rewrite <- Hf.
  destruct (Driver.failed_dates driver) as [|x l]; simpl.
  - split; [split; done|]. intros Hne. by destruct Hne.
  - split; [split; intros; done|]. done.
Qed.

Lemma driver_exit_code_witness :
  exists driver,
    Driver.driver_main Driver.PipelineDriver src_config 2 day2_fails three_days
      20 (Some retry_succeeds) 20 no_files = Some (1%Z, driver)
    /\ Driver.failed_dates driver = [Date 1988 4 1].
Proof.
  eexists. split; [vm_compute; reflexivity|].
  pose proof (driver_exit_code Driver.PipelineDriver src_config 2 day2_fails
                three_days 20 (Some retry_succeeds) 20 no_files 1%Z _
                ltac:(vm_compute; reflexivity)) as (_ & H & _).
  rewrite H. vm_compute. reflexivity.
Defined.

(** C6, as stated, fails: a date fails in the main pass and succeeds in
    the retry pass, so that no date remains failed (the terminal failure
    file is the empty mapping), yet the driver exits with 1. *)
Lemma driver_exit_ignores_retry :
  exists driver,
    Driver.driver_main Driver.PipelineDriver src_config 2 day2_fails three_days
      20 (Some retry_succeeds) 20 no_files = Some (1%Z, driver)
    /\ ULTIMATE_FAILURE_FILE (Driver.fs driver) = Some (JsonObject [])
    /\ Driver.log driver !! 12 = Some (LogRetryFinished 0).
Proof.
  eexists. split; [vm_compute; reflexivity|]. split; reflexivity.
Qed.

(** C7 (the code at the failing input).  The ledger holds one date and the
    worker of the retry cannot be started: the record stays in the terminal
    failure file, and the retry step returns 0.  The same happens for a
    ledger whose only key does not parse as a date. *)
Theorem retry_exit_zero_with_remaining :
  (exists fs' st,
     RetryFailed.main cannot_launch 10
       (ledger_file [("1988-04-01", record_of "1988-04-01")])
     = Some (0%Z, fs', st)
     /\ ULTIMATE_FAILURE_FILE fs'
        = Some (JsonObject [("1988-04-01", record_of "1988-04-01")]))
  /\ (exists fs' st,
        RetryFailed.main retry_succeeds 10
          (ledger_file [("April 1st", record_of "April 1st")])
        = Some (0%Z, fs', st)
        /\ ULTIMATE_FAILURE_FILE fs'
           = Some (JsonObject [("April 1st", record_of "April 1st")])).
Proof.
  split; eexists _, _; (split; [vm_compute; reflexivity | reflexivity]).
Qed.

(** C2 (amended).  Retry convergence, for a ledger whose keys that parse
    as dates are canonical [YYYY-MM-DD] strings, as every key the driver
    writes is.  When the retry step returns, the terminal failure file has
    been written exactly once, and it holds the following mapping [L],
    whose entries are entries of the ledger, in the order of the ledger.
    A date is on the completed list only when its own worker was polled
    with exit code 0, and then [L] has no entry for it.  A date is on the
    failed list only when its own worker was polled with a nonzero exit
    code, and then [L] has its entry: the date and the variables of the
    original record, the message of that exit code and the time of that
    poll.  Every other entry of the ledger (a date on neither list, a key
    that does not parse) is in [L] as it was loaded.  When no two workers
    get the same pid, every worker that was started has put its date on
    one of the two lists.  When every key of the ledger belongs to a date
    on the completed list, [L] is the empty mapping. *)
Theorem retry_convergence (w : World) (fuel : nat) (fs : FileSystem)
    (f : json_file) (failed_jobs : Ledger) (code : Z) (fs' : FileSystem)
    (st : RetryFailed.Locals) :
  FAILED_JOBS_FILE fs = Some f -> json_load f = Some failed_jobs ->
  canonical_keys failed_jobs = true ->
  RetryFailed.main w fuel fs = Some (code, fs', st) ->
  let dates := omap strptime (dict_keys failed_jobs) in
  let final := RetryFailed.exec w fuel (RetryFailed.loop_entry failed_jobs) in
  exists L,
    ULTIMATE_FAILURE_FILE fs' = Some (JsonObject L)
    /\ ultimate_writes fs' = S (ultimate_writes fs)
    /\ FAILED_JOBS_FILE fs' = FAILED_JOBS_FILE fs
    /\ dict_keys L `sublist_of` dict_keys failed_jobs
    /\ (forall d, d ∈ RetryFailed.completed_dates final ->
          dict_get (strftime d) L = None
          /\ exists t proc, worker_of w dates d proc /\ poll w t proc = Some 0%Z)
    /\ (forall d, d ∈ RetryFailed.failed_dates final ->
          exists r0 t proc rc,
            worker_of w dates d proc
            /\ dict_get (strftime d) failed_jobs = Some r0
            /\ poll w t proc = Some rc /\ rc ≠ 0%Z
            /\ dict_get (strftime d) L
               = Some {| rec_date := rec_date r0;
                         variables_to_retry := variables_to_retry r0;
                         error_message :=
                           "Retry failed with exit code " +:+ pretty rc;
                         last_attempt := now w t proc |})
    /\ (forall d, d ∈ dates ->
          d ∉ RetryFailed.completed_dates final ->
          d ∉ RetryFailed.failed_dates final ->
          dict_get (strftime d) L = dict_get (strftime d) failed_jobs)
    /\ (forall k, strptime k = None -> dict_get k L = dict_get k failed_jobs)
    /\ (pids_distinct w ->
        forall i d p, dates !! i = Some d -> popen w i = Some p ->
          d ∈ RetryFailed.completed_dates final
          \/ d ∈ RetryFailed.failed_dates final)
    /\ ((forall k, k ∈ dict_keys failed_jobs ->
           exists d, strptime k = Some d
                     /\ d ∈ RetryFailed.completed_dates final) ->
        L = []).
Proof.
  intros Hfile Hload Hcanon Hmain dates final.
  pose proof (json_load_wf f failed_jobs Hload) as Hwf.
  pose proof (retry_inv_exec w failed_jobs Hwf Hcanon fuel)
    as (_ & _ & _ & Hkeys & _ & (HA & HB & HC) & _).
  pose proof (fun k => retry_unparsable_kept w failed_jobs fuel k) as HU.
  fold final in Hkeys, HA, HB, HC, HU.
  assert (Hempty : forall L : Ledger,
            dict_keys L `sublist_of` dict_keys failed_jobs ->
            (forall d, d ∈ RetryFailed.completed_dates final ->
               dict_get (strftime d) L = None) ->
            (forall k, k ∈ dict_keys failed_jobs ->
               exists d, strptime k = Some d
                         /\ d ∈ RetryFailed.completed_dates final) ->
            L = []).
  { intros L Hsub HAL Hall. destruct L as [|[k r] L']; [done|]. exfalso.
    assert (Hk : k ∈ dict_keys failed_jobs).
    { eapply elem_of_sublist; [|exact Hsub]. apply elem_of_cons; auto. }
    destruct (Hall k Hk) as (d & Hp & Hd).
    specialize (HAL d Hd).
    rewrite (canonical_keys_spec failed_jobs k d Hcanon Hk Hp) in HAL.
    simpl in HAL. by rewrite decide_True in HAL. }
  unfold RetryFailed.main in Hmain. rewrite Hfile, Hload in Hmain.
  destruct failed_jobs as [|kv rest].
  - (* the ledger is empty: the step returns before the loop *)
    simplify_eq. exists []. simpl.
    split; [done|]. split; [done|]. split; [done|]. split; [done|].
    split; [intros d Hd; split; [done | apply (HA d Hd)]|].
    split.
    { intros d Hd. destruct (HB d Hd) as (r0 & _ & _ & _ & _ & Hr0 & _). done. }
    split; [done|]. split; [done|].
    split; [|done].
    intros _ i d p Hi. unfold dates in Hi. simpl in Hi. done.
  - fold final in Hmain.
    destruct (RetryFailed.pc final) eqn:Hpc; try done.
    unfold RetryFailed.finish in Hmain. simplify_eq.
    exists (RetryFailed.remaining_failures final). simpl.
    split; [done|]. split; [done|]. split; [done|]. split; [done|].
    split; [exact HA|]. split.
    { intros d Hd.
      destruct (HB d Hd) as (r0 & t & proc & rc & H0 & H1 & H2 & H3 & H4).
      by exists r0, t, proc, rc. }
    split; [exact HC|]. split; [exact HU|]. split.
    + intros Hpids i d p Hi Hp.
      destruct (retry_accounted_exec w (kv :: rest) Hpids fuel)
        as (_ & _ & _ & Hacc & Hexit).
      fold final in Hacc, Hexit. destruct (Hexit Hpc) as [Hnil Hlen].
      assert (Hlt : i < RetryFailed.date_index final).
      { apply lookup_lt_Some in Hi. fold dates in Hlen. lia. }
      destruct (Hacc i d p Hlt Hi Hp) as [Ha|[?|?]]; auto.
      rewrite Hnil in Ha. by apply elem_of_nil in Ha.
    + apply Hempty; [done|]. intros d Hd. by apply HA.
Qed.

Lemma retry_convergence_witness :
  let failed_jobs := [("1988-04-01", record_of "1988-04-01");
                      ("1988-04-02", record_of "1988-04-02")] in
  FAILED_JOBS_FILE (ledger_file failed_jobs) = Some (JsonObject failed_jobs)
  /\ json_load (JsonObject failed_jobs) = Some failed_jobs
  /\ canonical_keys failed_jobs = true
  /\ exists fs' st,
       RetryFailed.main retry_mixed 10 (ledger_file failed_jobs)
       = Some (1%Z, fs', st)
       /\ exists L,
            ULTIMATE_FAILURE_FILE fs' = Some (JsonObject L)
            /\ ultimate_writes fs' = 1
            /\ dict_get "1988-04-01" L = None
            /\ exists r, dict_get "1988-04-02" L = Some r
                         /\ error_message r = "Retry failed with exit code 3"
                         /\ variables_to_retry r
                            = variables_to_retry (record_of "1988-04-02").
Proof.
  split; [reflexivity|]. split; [reflexivity|]. split; [reflexivity|].
  eexists _, _. split; [vm_compute; reflexivity|].
  destruct (retry_convergence retry_mixed 10
              (ledger_file [("1988-04-01", record_of "1988-04-01");
                            ("1988-04-02", record_of "1988-04-02")])
              _ _ 1%Z _ _ eq_refl eq_refl eq_refl
              ltac:(vm_compute; reflexivity))
    as (L & HL & Hw & _ & _ & HA & HB & _).
  exists L. split; [exact HL|]. split; [exact Hw|]. split.
  - apply (HA (Date 1988 4 1)). vm_compute. apply elem_of_cons; auto.
  - destruct (HB (Date 1988 4 2)) as (r0 & t & proc & rc & Hwk & Hr0 & Hp & Hne & Hr).
    { vm_compute. apply elem_of_cons; auto. }
    eexists. split; [exact Hr|]. simpl.
    assert (r0 = record_of "1988-04-02") as ->
      by (vm_compute in Hr0; injection Hr0 as <-; reflexivity).
    split; [|reflexivity].
    destruct Hwk as [Hj Hq]. 
    assert (job proc = 1) as Hjob.
    { change (omap strptime (dict_keys [("1988-04-01", record_of "1988-04-01");
                                        ("1988-04-02", record_of "1988-04-02")]))
        with [Date 1988 4 1; Date 1988 4 2] in Hj.
      destruct (job proc) as [|[|n]]; simpl in Hj; [discriminate|reflexivity|discriminate]. }
    unfold retry_mixed in Hp. simpl in Hp. rewrite Hjob in Hp.
    destruct (t <? 1); [discriminate|]. simpl in Hp. by simplify_eq.
Defined.

(** C2, as stated, fails for a ledger key that parses but is not canonical:
    the ledger holds the key ["1988-4-1"], which [strptime] reads as the
    first of April.  When the worker of that date exits with 0 the record
    is still in the terminal failure file; when it exits with 3 the record
    is there with its old message and time, and nothing is recorded under
    ["1988-04-01"]. *)
Lemma retry_noncanonical_key_kept :
  let fs := ledger_file [("1988-4-1", record_of "1988-4-1")] in
  strptime "1988-4-1" = Some (Date 1988 4 1)
  /\ (exists fs' st,
        RetryFailed.main retry_succeeds 10 fs = Some (0%Z, fs', st)
        /\ RetryFailed.completed_dates st = [Date 1988 4 1]
        /\ ULTIMATE_FAILURE_FILE fs'
           = Some (JsonObject [("1988-4-1", record_of "1988-4-1")]))
  /\ (exists fs' st,
        RetryFailed.main retry_fails 10 fs = Some (1%Z, fs', st)
        /\ RetryFailed.failed_dates st = [Date 1988 4 1]
        /\ ULTIMATE_FAILURE_FILE fs'
           = Some (JsonObject [("1988-4-1", record_of "1988-4-1")])).
Proof.
  split; [reflexivity|].
  split; eexists _, _; (split; [vm_compute; reflexivity | split; reflexivity]).
Qed.

(** C10. Keys that do not parse.  For a key of the loaded ledger that does
    not parse as a date, the retry pass has no task and never a worker, the
    terminal failure file holds the record of that key as it was loaded,
    and when every worker of the pass exits with 0 the retry step returns
    0 although that record remains. *)
Theorem unparsable_keys_survive (w : World) (fuel : nat) (fs : FileSystem)
    (f : json_file) (failed_jobs : Ledger) (k : string) (r : FailureRecord)
    (code : Z) (fs' : FileSystem) (st : RetryFailed.Locals) :
  FAILED_JOBS_FILE fs = Some f -> json_load f = Some failed_jobs ->
  dict_get k failed_jobs = Some r -> strptime k = None ->
  RetryFailed.main w fuel fs = Some (code, fs', st) ->
  (forall d, d ∈ RetryFailed.dates_to_process st -> strftime d ≠ k)
  /\ (forall n item,
        item ∈ RetryFailed.active_processes
                 (RetryFailed.exec w n (RetryFailed.loop_entry failed_jobs)) ->
        strftime item.2.1 ≠ k)
  /\ (exists L, ULTIMATE_FAILURE_FILE fs' = Some (JsonObject L)
                /\ dict_get k L = Some r)
  /\ ((forall t p rc, poll w t p = Some rc -> rc = 0%Z) -> code = 0%Z).
Proof.
  intros Hfile Hload Hk Hparse Hmain.
  unfold RetryFailed.main in Hmain. rewrite Hfile, Hload in Hmain.
  destruct failed_jobs as [|kv rest] eqn:Efj; [done|].
  rewrite <- Efj in *. clear Efj.
  pose proof (retry_unparsable_kept w failed_jobs fuel k Hparse) as Hkept.
  pose proof (retry_no_failures w failed_jobs fuel) as Hzero.
  assert (Hdates : RetryFailed.dates_to_process
                     (RetryFailed.exec w fuel (RetryFailed.loop_entry failed_jobs))
                   = omap strptime (dict_keys failed_jobs)).
  { apply (retry_exec_invariant w (fun s =>
      RetryFailed.dates_to_process s = omap strptime (dict_keys failed_jobs))).
    - apply loop_entry_dates.
    - intros s Hs. unfold RetryFailed.step. destruct (RetryFailed.pc s).
      + destruct (_ || _); [|done].
        by rewrite (proj1 (retry_check_frame w s)).
      + destruct (_ && _); [|done]. destruct (_ !! _) as [d|]; [|done].
        by rewrite (proj1 (retry_launch_frame w d s)).
      + done. }
  destruct (RetryFailed.pc (RetryFailed.exec w fuel
              (RetryFailed.loop_entry failed_jobs))); try done.
  unfold RetryFailed.finish in Hmain. simplify_eq. simpl.
  split; [|split; [|split]].
  - rewrite Hdates. intros d Hd. by eapply parsed_not_unparsable.
  - intros n item Hin. eapply parsed_not_unparsable; [|done].
    by eapply retry_active_dates.
  - eexists. split; [done|]. by rewrite Hkept.
  - intros Hall. by rewrite (Hzero Hall).
Qed.

Lemma unparsable_keys_survive_witness :
  let failed_jobs := [("April 1st", record_of "April 1st");
                      ("1988-04-02", record_of "1988-04-02")] in
  FAILED_JOBS_FILE (ledger_file failed_jobs) = Some (JsonObject failed_jobs)
  /\ json_load (JsonObject failed_jobs) = Some failed_jobs
  /\ dict_get "April 1st" failed_jobs = Some (record_of "April 1st")
  /\ strptime "April 1st" = None
  /\ exists fs' st,
       RetryFailed.main retry_succeeds 10 (ledger_file failed_jobs)
       = Some (0%Z, fs', st)
       /\ exists L, ULTIMATE_FAILURE_FILE fs' = Some (JsonObject L)
                    /\ dict_get "April 1st" L = Some (record_of "April 1st").
Proof.
  split; [reflexivity|]. split; [reflexivity|]. split; [reflexivity|].
  split; [reflexivity|].
  eexists _, _. split; [vm_compute; reflexivity|].
  eapply (unparsable_keys_survive retry_succeeds 10
            (ledger_file [("April 1st", record_of "April 1st");
                          ("1988-04-02", record_of "1988-04-02")])
            _ _ "April 1st" _ 0%Z);
    [reflexivity | reflexivity | reflexivity | reflexivity |].
  vm_compute. reflexivity.
Defined.
